(** * Free Fire Max Tournament API: the resolution and identifier scheme

    A shallow embedding of [main.py] and [schemas.py].  Documents are Python
    dicts, modelled as [gmap string value]; a collection is the list of its
    documents in insertion order; handlers thread the store explicitly and
    raise through a small error monad.  What the sources do not decide (the
    identifier the store assigns to an insert, the bytes drawn by [secrets],
    the process environment, the conversions pydantic applies to a member
    that is not of the annotated kind) is an explicit input, [Env].

    Strings are [string]: a character of the Python [str] is one [ascii]. *)

From Stdlib Require Import ZArith NArith Ascii String List Lia.
From Stdlib.Strings Require Import Byte.
From stdpp Require Import gmap strings list fin_maps pretty.

Open Scope string_scope.

Set Warnings "-register-all".

(** ** Hexadecimal text *)

Module Hex.

Definition digit (n : N) : ascii :=
  match n with
  | 0%N => "0" | 1%N => "1" | 2%N => "2" | 3%N => "3"
  | 4%N => "4" | 5%N => "5" | 6%N => "6" | 7%N => "7"
  | 8%N => "8" | 9%N => "9" | 10%N => "a" | 11%N => "b"
  | 12%N => "c" | 13%N => "d" | 14%N => "e" | _ => "f"
  end%char.

(** The value of a hexadecimal digit, upper or lower case. *)
Definition value_of (c : ascii) : option N :=
  let n := N_of_ascii c in
  if ((48 <=? n) && (n <=? 57))%N then Some (n - 48)%N
  else if ((97 <=? n) && (n <=? 102))%N then Some (n - 87)%N
  else if ((65 <=? n) && (n <=? 70))%N then Some (n - 55)%N
  else None.

Definition is_lower_digit (c : ascii) : bool :=
  let n := N_of_ascii c in
  (((48 <=? n) && (n <=? 57)) || ((97 <=? n) && (n <=? 102)))%N.

Definition of_byte (b : byte) : string :=
  let n := Byte.to_N b in
  String (digit (n / 16)) (String (digit (n mod 16)) "").

(** [bytes.hex()] *)
Fixpoint hexlify (bs : list byte) : string :=
  match bs with
  | [] => ""
  | b :: bs' => of_byte b ++ hexlify bs'
  end.

Definition is_digit (c : ascii) : bool :=
  match value_of c with
  | Some _ => true
  | None => false
  end.

(** ASCII white space, as [bytes.fromhex] skips it: space, tab, line feed,
    vertical tab, form feed, carriage return. *)
Definition is_space (c : ascii) : bool :=
  let n := N_of_ascii c in
  ((n =? 32) || ((9 <=? n) && (n <=? 13)))%N.

(** [bytes.fromhex]: two hexadecimal digits per byte, white space between
    the bytes ignored (not between the two digits of a byte). *)
Fixpoint fromhex (s : string) : option (list byte) :=
  match s with
  | "" => Some []
  | String c1 rest1 =>
      if is_space c1 then fromhex rest1
      else
        match rest1 with
        | String c2 rest =>
            match value_of c1, value_of c2 with
            | Some h, Some l =>
                match Byte.of_N (16 * h + l), fromhex rest with
                | Some b, Some bs => Some (b :: bs)
                | _, _ => None
                end
            | _, _ => None
            end
        | "" => None
        end
  end.

(** The number of white space characters of a string. *)
Fixpoint count_space (s : string) : nat :=
  match s with
  | "" => 0
  | String c s' => (if is_space c then 1 else 0) + count_space s'
  end.

Fixpoint all_chars (p : ascii -> bool) (s : string) : bool :=
  match s with
  | "" => true
  | String c s' => p c && all_chars p s'
  end.

End Hex.

(** ** [bson.ObjectId]

    An ObjectId holds bytes, twelve of them when the store made it.
    [ObjectId(str)] raises [InvalidId] unless the string has 24 characters
    and [bytes.fromhex] accepts it, and keeps the bytes [bytes.fromhex]
    returns: twelve for 24 hexadecimal digits, fewer when the string holds
    white space between digit pairs.  [str(oid)] is the bytes in lower-case
    hexadecimal. *)

Abbreviation ObjectId := (list byte).

Definition valid_oid (o : ObjectId) : Prop := length o = 12.

Definition str_oid (o : ObjectId) : string := Hex.hexlify o.

Definition ObjectId_of_str (s : string) : option ObjectId :=
  if Nat.eqb (String.length s) 24 then Hex.fromhex s else None.

#[global] Instance byte_eq_dec : EqDecision byte := Byte.byte_eq_dec.

(** ** Values and documents *)

(** A Python float: a finite binary64 number [m * 2^e], an infinity or a
    NaN. *)
Inductive pyfloat : Type :=
  | FFinite (m e : Z)
  | FInf (negative : bool)
  | FNaN.

#[global] Instance pyfloat_eq_dec : EqDecision pyfloat.
Proof. solve_decision. Defined.

(** What a decoded JSON body or a stored document holds. *)
Inductive value : Type :=
  | VNone
  | VBool (b : bool)
  | VInt (z : Z)
  | VFloat (f : pyfloat)
  | VStr (s : string)
  | VOid (o : ObjectId)
  | VDatetime (t : Z)
  | VList (l : list value)
  | VDict (kvs : list (string * value)).

Fixpoint value_eq_dec_aux (v w : value) {struct v} : {v = w} + {v ≠ w}.
Proof.
  destruct v as [|b|z|f|s|o|t|l|kvs], w as [|b'|z'|f'|s'|o'|t'|l'|kvs'];
    try (right; discriminate).
  - left; reflexivity.
  - destruct (decide (b = b')) as [Heq|Hne]; [left|right]; congruence.
  - destruct (decide (z = z')) as [Heq|Hne]; [left|right]; congruence.
  - destruct (decide (f = f')) as [Heq|Hne]; [left|right]; congruence.
  - destruct (decide (s = s')) as [Heq|Hne]; [left|right]; congruence.
  - destruct (decide (o = o')) as [Heq|Hne]; [left|right]; congruence.
  - destruct (decide (t = t')) as [Heq|Hne]; [left|right]; congruence.
  - enough ({l = l'} + {l ≠ l'}) as [Heq|Hne];
      [left; congruence|right; congruence|].
    revert l'. induction l as [|x l IH]; intros [|y l'];
      try (right; discriminate); [left; reflexivity|].
    destruct (value_eq_dec_aux x y) as [Hxy|Hne]; [|right; congruence].
    destruct (IH l') as [Hl|Hne]; [left|right]; congruence.
  - enough ({kvs = kvs'} + {kvs ≠ kvs'}) as [Heq|Hne];
      [left; congruence|right; congruence|].
    revert kvs'. induction kvs as [|[k x] l IH]; intros [|[k' y] l'];
      try (right; discriminate); [left; reflexivity|].
    destruct (decide (k = k')) as [Hk|Hne]; [|right; congruence].
    destruct (value_eq_dec_aux x y) as [Hxy|Hne]; [|right; congruence].
    destruct (IH l') as [Hl|Hne]; [left|right]; congruence.
Defined.

#[global] Instance value_eq_dec : EqDecision value := value_eq_dec_aux.

Abbreviation doc := (gmap string value).

(** Python truthiness of a value ([bool(v)]). *)
Definition truthy (v : value) : bool :=
  match v with
  | VNone => false
  | VBool b => b
  | VInt z => negb (Z.eqb z 0)
  | VFloat (FFinite m _) => negb (Z.eqb m 0)
  | VFloat _ => true
  | VStr s => negb (bool_decide (s = ""))
  | VOid _ => true
  | VDatetime _ => true
  | VList l => match l with [] => false | _ => true end
  | VDict kvs => match kvs with [] => false | _ => true end
  end.

(** [str(v)].  Exact on [None], booleans, integers, strings and ObjectIds;
    the handlers apply [str] to the [_id] of a document and to nothing else,
    and the store sets an ObjectId there.  Python's text for a float, a
    datetime, a list or a dict is not reproduced: the type name stands for
    it. *)
Definition py_str (v : value) : string :=
  match v with
  | VNone => "None"
  | VBool true => "True"
  | VBool false => "False"
  | VInt z => pretty z
  | VFloat _ => "float"
  | VStr s => s
  | VOid o => str_oid o
  | VDatetime _ => "datetime"
  | VList _ => "list"
  | VDict _ => "dict"
  end.

(** [d.get(k)]: an absent key reads as [None]. *)
Definition dict_get (d : doc) (k : string) : value :=
  default VNone (d !! k).

(** ** What the sources do not decide

    An [Env] goes with each request.  pydantic validates a body in lax mode:
    a member that is not of the annotated kind may be converted (the string
    "48" or the float 48.0 to the int 48, an ISO 8601 string or a timestamp to
    a datetime).  The library is not among the sources; what it makes of such
    a member is given by [lax_int] and [lax_datetime], [None] when it
    refuses. *)
Record Env : Type := mkEnv {
  new_oid : ObjectId;              (* the id the store assigns to an insert *)
  rng : nat -> byte;               (* the bytes [secrets] draws *)
  FRONTEND_URL : option string;
  DATABASE_URL : option string;
  database_name : string;
  lax_int : value -> option Z;
  lax_datetime : value -> option Z
}.

(** ** Entity schemas ([schemas.py])

    A pydantic model is the list of its fields: name, annotation and default.
    A request body is a decoded JSON object; members the model does not
    declare are ignored. *)

Inductive base_type : Type :=
  | TStr
  | TInt (ge le : Z)
  | TLiteral (allowed : list string)
  | TDatetime
  | TStrList
  | TDict.

Inductive annotation : Type :=
  | Plain (t : base_type)
  | Optional (t : base_type).

Inductive field_default : Type :=
  | Required
  | Default (v : value).

Record field : Type := Field {
  fname : string;
  fannot : annotation;
  fdefault : field_default
}.

#[global] Instance base_type_eq_dec : EqDecision base_type.
Proof. solve_decision. Defined.
#[global] Instance annotation_eq_dec : EqDecision annotation.
Proof. solve_decision. Defined.
#[global] Instance field_default_eq_dec : EqDecision field_default.
Proof. solve_decision. Defined.
#[global] Instance field_eq_dec : EqDecision field.
Proof. solve_decision. Defined.

Definition schema := list field.

Definition Tournament : schema := [
  Field "title" (Plain TStr) Required;
  Field "description" (Optional TStr) (Default VNone);
  Field "game" (Plain TStr) (Default (VStr "Free Fire Max"));
  Field "mode" (Plain (TLiteral ["Solo"; "Duo"; "Squad"])) (Default (VStr "Squad"));
  Field "prize_pool" (Optional TStr) (Default VNone);
  Field "entry_fee" (Optional TStr) (Default VNone);
  Field "max_participants" (Plain (TInt 1 1000)) (Default (VInt 48));
  Field "starts_at" (Optional TDatetime) (Default VNone);
  Field "rules" (Optional TStr) (Default VNone);
  Field "status" (Plain (TLiteral ["upcoming"; "ongoing"; "completed"]))
        (Default (VStr "upcoming"));
  Field "banner_url" (Optional TStr) (Default VNone);
  Field "region" (Optional TStr) (Default (VStr "Global"));
  Field "share_code" (Optional TStr) (Default VNone)
].

Definition Participant : schema := [
  Field "tournament_id" (Plain TStr) Required;
  Field "name" (Plain TStr) Required;
  Field "ign" (Optional TStr) (Default VNone);
  Field "team_name" (Optional TStr) (Default VNone);
  Field "contact_email" (Optional TStr) (Default VNone);
  Field "contact_phone" (Optional TStr) (Default VNone);
  Field "region" (Optional TStr) (Default VNone);
  Field "notes" (Optional TStr) (Default VNone)
].

Definition Match : schema := [
  Field "tournament_id" (Plain TStr) Required;
  Field "round_name" (Plain TStr) Required;
  Field "map_name" (Optional TStr) (Default VNone);
  Field "scheduled_at" (Optional TDatetime) (Default VNone);
  Field "room_id" (Optional TStr) (Default VNone);
  Field "room_password" (Optional TStr) (Default VNone);
  Field "status" (Plain (TLiteral ["scheduled"; "live"; "completed"]))
        (Default (VStr "scheduled"));
  Field "participants" (Optional TStrList) (Default VNone);
  Field "result" (Optional TDict) (Default VNone)
].

(** The int a member stands for: an int is itself, a bool is 0 or 1, a float
    or a string is what the lax conversion makes of it. *)
Definition as_int (e : Env) (v : value) : option Z :=
  match v with
  | VInt z => Some z
  | VBool b => Some (if b then 1 else 0)%Z
  | VFloat _ | VStr _ => lax_int e v
  | _ => None
  end.

(** The datetime a member stands for: a datetime is itself, a string or a
    number is what the lax conversion makes of it. *)
Definition as_datetime (e : Env) (v : value) : option value :=
  match v with
  | VDatetime _ => Some v
  | VStr _ | VInt _ | VFloat _ => VDatetime <$> lax_datetime e v
  | _ => None
  end.

Definition is_str (v : value) : bool :=
  match v with
  | VStr _ => true
  | _ => false
  end.

(** The validated value of a member, [None] when the member fails the
    annotation.  [str] and [Literal] take no conversion; the bounds of an int
    are checked after the conversion. *)
Definition validate_base (e : Env) (t : base_type) (v : value) : option value :=
  match t with
  | TStr => if is_str v then Some v else None
  | TInt ge le =>
      match as_int e v with
      | Some z => if ((ge <=? z) && (z <=? le))%Z then Some (VInt z) else None
      | None => None
      end
  | TLiteral allowed =>
      match v with
      | VStr s => if bool_decide (s ∈ allowed) then Some v else None
      | _ => None
      end
  | TDatetime => as_datetime e v
  | TStrList =>
      match v with
      | VList l => if forallb is_str l then Some v else None
      | _ => None
      end
  | TDict =>
      match v with
      | VDict _ => Some v
      | _ => None
      end
  end.

Definition validate_annot (e : Env) (a : annotation) (v : value)
  : option value :=
  match a with
  | Plain t => validate_base e t v
  | Optional t => if bool_decide (v = VNone) then Some VNone
                  else validate_base e t v
  end.

(** One field of the model: the validated value of the supplied member, the
    default when the member is absent, an error otherwise. *)
Definition validate_field (e : Env) (f : field) (body : doc) : option value :=
  match body !! fname f with
  | Some v => validate_annot e (fannot f) v
  | None =>
      match fdefault f with
      | Required => None
      | Default v => Some v
      end
  end.

(** Validation of a body against a model; [None] is pydantic's
    [ValidationError].  The result holds every declared field. *)
Fixpoint model_validate (e : Env) (sch : schema) (body : doc) : option doc :=
  match sch with
  | [] => Some ∅
  | f :: sch' =>
      match validate_field e f body, model_validate e sch' body with
      | Some v, Some d => Some (<[fname f := v]> d)
      | _, _ => None
      end
  end.

(** [payload.model_dump()]: the validated fields as a dict. *)
Definition model_dump (payload : doc) : doc := payload.

(** ** The document store *)

Inductive collection : Type := tournament | participant | match_.

#[global] Instance collection_eq_dec : EqDecision collection.
Proof. solve_decision. Defined.

Record Store : Type := mkStore {
  tournaments : list doc;
  participants : list doc;
  matches : list doc
}.

Definition empty_store : Store := mkStore [] [] [].

#[global] Instance Store_eq_dec : EqDecision Store.
Proof. solve_decision. Defined.

(** [db[name]] *)
Definition db (st : Store) (c : collection) : list doc :=
  match c with
  | tournament => tournaments st
  | participant => participants st
  | match_ => matches st
  end.

Definition insert_one (c : collection) (d : doc) (st : Store) : Store :=
  match c with
  | tournament => mkStore (tournaments st ++ [d]) (participants st) (matches st)
  | participant => mkStore (tournaments st) (participants st ++ [d]) (matches st)
  | match_ => mkStore (tournaments st) (participants st) (matches st ++ [d])
  end.

(** An equality filter: every listed field has the listed value. *)
Definition query := list (string * value).

Definition satisfies (q : query) (d : doc) : bool :=
  forallb (fun kv => bool_decide (d !! kv.1 = Some kv.2)) q.

(** [collection.find_one(q)]: the first match in store order. *)
Definition find_one (docs : list doc) (q : query) : option doc :=
  List.find (satisfies q) docs.

(** Modelled from the spec: [database.create_document] is not among the
    sources.  It "inserts a record into the named collection and returns its
    newly assigned internal id as a string". *)
Definition create_document (e : Env) (st : Store) (c : collection) (data : doc)
  : string * Store :=
  (str_oid (new_oid e), insert_one c (<["_id" := VOid (new_oid e)]> data) st).

(** Modelled from the spec: [database.get_documents] is not among the
    sources.  It "returns all records matching an equality filter", the full
    matching set in store order; without a filter, every record. *)
Definition get_documents (st : Store) (c : collection) (filter_dict : query)
  : list doc :=
  List.filter (satisfies filter_dict) (db st c).

(** [secrets.token_bytes(n)] and [secrets.token_hex(n)] *)
Definition token_bytes (e : Env) (n : nat) : list byte := map (rng e) (seq 0 n).
Definition token_hex (e : Env) (n : nat) : string := Hex.hexlify (token_bytes e n).

(** ** Errors and responses *)

Inductive error : Type :=
  | HTTPException (status_code : nat) (detail : string)
  | RequestValidationError        (* the body fails its model: HTTP 422 *)
  | InternalError.                (* an exception no handler catches: HTTP 500 *)

Inductive result (A : Type) : Type :=
  | Ok (a : A)
  | Raise (e : error).
Arguments Ok {A} a.
Arguments Raise {A} e.

#[global] Instance result_ret : MRet result := fun A a => Ok a.
#[global] Instance result_bind : MBind result := fun A B f r =>
  match r with
  | Ok a => f a
  | Raise e => Raise e
  end.

Inductive response : Type :=
  | RespDict (d : doc)                         (* a dict literal *)
  | RespRecord (obj : option doc)              (* a document, or [None] *)
  | RespRecords (items : list doc)             (* a list of documents *)
  | RespShareLink (share_url code : string).   (* [ShareLinkResponse] *)

#[global] Instance error_eq_dec : EqDecision error.
Proof. solve_decision. Defined.

#[global] Instance result_eq_dec `{EqDecision A} : EqDecision (result A).
Proof. solve_decision. Defined.

#[global] Instance response_eq_dec : EqDecision response.
Proof. solve_decision. Defined.

Definition NotFound : error := HTTPException 404 "Tournament not found".
Definition BadRequest : error := HTTPException 400 "Invalid id".

(** [not obj] for what [find_one] returns: [None], or an empty dict. *)
Definition falsy (obj : option doc) : bool :=
  match obj with
  | None => true
  | Some d => bool_decide (d = ∅)
  end.

(** ** Utils *)

Definition to_str_id (obj : doc) : doc :=
  if truthy (dict_get obj "_id")
  then <["id" := VStr (py_str (dict_get obj "_id"))]> (delete "_id" obj)
  else obj.

Definition serialize_list (items : list doc) : list doc :=
  map to_str_id items.

Definition oid (id_str : string) : result ObjectId :=
  match ObjectId_of_str id_str with
  | Some o => Ok o
  | None => Raise BadRequest
  end.

(** ** Health *)

Definition root : result response :=
  Ok (RespDict {[ "message" := VStr "Free Fire Max Tournament API running" ]}).

(** [db.list_collection_names()]: a collection exists once it holds a
    document. *)
Definition list_collection_names (st : Store) : list string :=
  (if bool_decide (tournaments st = []) then [] else ["tournament"]) ++
  (if bool_decide (participants st = []) then [] else ["participant"]) ++
  (if bool_decide (matches st = []) then [] else ["match"]).

(** The module-level store handle as [test_database] finds it: absent
    ([db is None]), present with [list_collection_names] raising an exception
    of the given text, or present and answering. *)
Inductive db_handle : Type :=
  | DbNone
  | DbFailing (message : string)
  | DbWorking.

Definition test_database (e : Env) (h : db_handle) (st : Store)
  : result response :=
  let response : doc :=
    <["backend" := VStr "✅ Running"]> (
    <["database" := VStr "❌ Not Available"]> (
    <["database_url" := VNone]> (
    <["database_name" := VNone]> (
    <["connection_status" := VStr "Not Connected"]> (
    <["collections" := VList []]> ∅))))) in
  match h with
  | DbNone => Ok (RespDict response)
  | _ =>
      let response := <["database" := VStr "✅ Available"]> response in
      let response :=
        <["database_url" :=
            VStr (if truthy (default VNone (VStr <$> DATABASE_URL e))
                  then "✅ Set" else "❌ Not Set")]> response in
      let response := <["database_name" := VStr (database_name e)]> response in
      let response := <["connection_status" := VStr "Connected"]> response in
      match h with
      | DbFailing message =>
          Ok (RespDict
                (<["database" :=
                     VStr ("⚠️ Connected but Error: " ++
                           String.substring 0 60 message)]> response))
      | _ =>
          let response :=
            <["collections" :=
                VList (VStr <$> take 10 (list_collection_names st))]>
              response in
          Ok (RespDict
                (<["database" := VStr "✅ Connected & Working"]> response))
      end
  end.

(** ** Tournaments *)

Definition list_tournaments (st : Store) : result response :=
  let items := get_documents st tournament [] in
  Ok (RespRecords (serialize_list items)).

Definition create_tournament (e : Env) (st : Store) (payload : doc)
  : result response * Store :=
  let data := model_dump payload in
  let data :=
    <["share_code" :=
        if truthy (dict_get data "share_code")
        then dict_get data "share_code"
        else VStr (token_hex e 3)]> data in
  let '(new_id, st') := create_document e st tournament data in
  match ObjectId_of_str new_id with
  | None => (Raise InternalError, st')
  | Some o =>
      let doc := find_one (db st' tournament) [("_id", VOid o)] in
      (Ok (RespRecord (to_str_id <$> doc)), st')
  end.

Definition get_tournament (st : Store) (tournament_id : string)
  : result response :=
  query ← (if Nat.eqb (String.length tournament_id) 24
           then o ← oid tournament_id; Ok [("_id", VOid o)]
           else Ok [("share_code", VStr tournament_id)]);
  let doc := find_one (db st tournament) query in
  if falsy doc then Raise NotFound
  else Ok (RespRecord (to_str_id <$> doc)).

(** ** Participants *)

Definition register_participant (e : Env) (st : Store)
    (tournament_id : string) (payload : doc) : result response * Store :=
  match (if Nat.eqb (String.length tournament_id) 24
         then o ← oid tournament_id; Ok [("_id", VOid o)]
         else Ok [("share_code", VStr tournament_id)]) with
  | Raise err => (Raise err, st)
  | Ok t_query =>
      let t := find_one (db st tournament) t_query in
      if falsy t then (Raise NotFound, st)
      else
        let data := model_dump payload in
        let data :=
          <["tournament_id" :=
              VStr (py_str (default VNone (t ≫= (.!! "_id"))))]> data in
        let '(new_id, st') := create_document e st participant data in
        match ObjectId_of_str new_id with
        | None => (Raise InternalError, st')
        | Some o =>
            let doc := find_one (db st' participant) [("_id", VOid o)] in
            (Ok (RespRecord (to_str_id <$> doc)), st')
        end
  end.

Definition list_participants (st : Store) (tournament_id : string)
  : result response :=
  let t_id := if Nat.eqb (String.length tournament_id) 24
              then VStr tournament_id else VNone in
  t_id ← (if negb (truthy t_id)
          then
            let t := find_one (db st tournament)
                              [("share_code", VStr tournament_id)] in
            if falsy t then Raise NotFound
            else Ok (VStr (py_str (default VNone (t ≫= (.!! "_id")))))
          else Ok t_id);
  let items := get_documents st participant [("tournament_id", t_id)] in
  Ok (RespRecords (serialize_list items)).

(** ** Matches *)

Definition create_match (e : Env) (st : Store)
    (tournament_id : string) (payload : doc) : result response * Store :=
  match (if Nat.eqb (String.length tournament_id) 24
         then o ← oid tournament_id; Ok [("_id", VOid o)]
         else Ok [("share_code", VStr tournament_id)]) with
  | Raise err => (Raise err, st)
  | Ok t_query =>
      let t := find_one (db st tournament) t_query in
      if falsy t then (Raise NotFound, st)
      else
        let data := model_dump payload in
        let data :=
          <["tournament_id" :=
              VStr (py_str (default VNone (t ≫= (.!! "_id"))))]> data in
        let '(new_id, st') := create_document e st match_ data in
        match ObjectId_of_str new_id with
        | None => (Raise InternalError, st')
        | Some o =>
            let doc := find_one (db st' match_) [("_id", VOid o)] in
            (Ok (RespRecord (to_str_id <$> doc)), st')
        end
  end.

Definition list_matches (st : Store) (tournament_id : string)
  : result response :=
  let t_id := if Nat.eqb (String.length tournament_id) 24
              then VStr tournament_id else VNone in
  t_id ← (if negb (truthy t_id)
          then
            let t := find_one (db st tournament)
                              [("share_code", VStr tournament_id)] in
            if falsy t then Raise NotFound
            else Ok (VStr (py_str (default VNone (t ≫= (.!! "_id")))))
          else Ok t_id);
  let items := get_documents st match_ [("tournament_id", t_id)] in
  Ok (RespRecords (serialize_list items)).

(** ** Sharing *)

(** [ShareLinkResponse(share_url=..., code=code)]: [code] must be a [str];
    the validation error of anything else is not caught. *)
Definition get_share_link (e : Env) (st : Store) (tournament_id : string)
  : result response :=
  query ← (if Nat.eqb (String.length tournament_id) 24
           then o ← oid tournament_id; Ok [("_id", VOid o)]
           else Ok [("share_code", VStr tournament_id)]);
  let t := find_one (db st tournament) query in
  if falsy t then Raise NotFound
  else
    let code := default VNone (t ≫= (.!! "share_code")) in
    let frontend_origin := default "http://localhost:3000" (FRONTEND_URL e) in
    match code with
    | VStr c => Ok (RespShareLink (frontend_origin ++ "/?t=" ++ py_str code) c)
    | _ => Raise InternalError
    end.

Definition get_by_share_code (st : Store) (code : string) : result response :=
  let t := find_one (db st tournament) [("share_code", VStr code)] in
  if falsy t then Raise NotFound
  else Ok (RespRecord (to_str_id <$> t)).

(** ** The application: routes and request validation

    The framework validates the body against the handler's model before the
    handler runs; a body that fails never reaches it.  The handlers are
    given the store, so [test_database] finds its handle present and
    answering. *)

Inductive request : Type :=
  | GET_root
  | GET_test
  | GET_tournaments
  | POST_tournaments (body : doc)
  | GET_tournament (tournament_id : string)
  | POST_register (tournament_id : string) (body : doc)
  | GET_participants (tournament_id : string)
  | POST_matches (tournament_id : string) (body : doc)
  | GET_matches (tournament_id : string)
  | GET_share (tournament_id : string)
  | GET_share_code (code : string).

Definition with_body (e : Env) (sch : schema) (body : doc) (st : Store)
    (handler : doc -> result response * Store) : result response * Store :=
  match model_validate e sch body with
  | Some payload => handler payload
  | None => (Raise RequestValidationError, st)
  end.

Definition app (e : Env) (st : Store) (req : request)
  : result response * Store :=
  match req with
  | GET_root => (root, st)
  | GET_test => (test_database e DbWorking st, st)
  | GET_tournaments => (list_tournaments st, st)
  | POST_tournaments body =>
      with_body e Tournament body st (create_tournament e st)
  | GET_tournament tid => (get_tournament st tid, st)
  | POST_register tid body =>
      with_body e Participant body st (register_participant e st tid)
  | GET_participants tid => (list_participants st tid, st)
  | POST_matches tid body =>
      with_body e Match body st (create_match e st tid)
  | GET_matches tid => (list_matches st tid, st)
  | GET_share tid => (get_share_link e st tid, st)
  | GET_share_code code => (get_by_share_code st code, st)
  end.

(** The declaration of a field, by name. *)
Definition field_named (k : string) (sch : schema) : option field :=
  List.find (fun f => bool_decide (fname f = k)) sch.

(** ** The resolution rule, in the words of the specification

    "If the string has the length/format of a store-native internal id,
    resolve by internal id; otherwise treat it as a share code and resolve by
    exact match on the share_code field.  Resolution that finds no match fails
    with a not found condition; a malformed internal-id-shaped string that the
    store rejects fails with a bad request condition."  This definition is
    written from that paragraph, not from a handler; the handlers are compared
    with it below. *)

Definition looks_like_internal_id (reference : string) : bool :=
  Nat.eqb (String.length reference) 24.

Definition resolve_tournament (st : Store) (reference : string) : result doc :=
  if looks_like_internal_id reference then
    match ObjectId_of_str reference with
    | None => Raise BadRequest
    | Some o =>
        match find_one (db st tournament) [("_id", VOid o)] with
        | Some t => Ok t
        | None => Raise NotFound
        end
    end
  else
    match find_one (db st tournament) [("share_code", VStr reference)] with
    | Some t => Ok t
    | None => Raise NotFound
    end.

(** A reference of 24 characters that does not parse, and a well-formed
    reference (one that parses to twelve bytes, or one that is not 24
    characters long) that no tournament answers to. *)
Definition malformed (reference : string) : Prop :=
  String.length reference = 24 ∧ ObjectId_of_str reference = None.

Definition unmatched (st : Store) (reference : string) : Prop :=
  (∃ o, ObjectId_of_str reference = Some o ∧ valid_oid o ∧
        ∀ d, d ∈ tournaments st → d !! "_id" ≠ Some (VOid o)) ∨
  (String.length reference ≠ 24 ∧
   ∀ d, d ∈ tournaments st → d !! "share_code" ≠ Some (VStr reference)).

(** ** Stores the application can be in *)

Definition has_oid (d : doc) : Prop :=
  ∃ o, d !! "_id" = Some (VOid o) ∧ valid_oid o.

Definition unique_ids (docs : list doc) : Prop :=
  ∀ i j d1 d2,
    docs !! i = Some d1 → docs !! j = Some d2 →
    d1 !! "_id" = d2 !! "_id" → i = j.

Record store_wf (st : Store) : Prop := mk_store_wf {
  wf_oid : ∀ c d, d ∈ db st c → has_oid d;
  wf_unique : ∀ c, unique_ids (db st c);
  wf_share_code : ∀ d, d ∈ tournaments st →
    ∃ code, d !! "share_code" = Some (VStr code) ∧ code ≠ ""
}.

(** The store assigns to an insert an identifier that is a well-formed
    ObjectId and that no stored document has. *)
Definition fresh (e : Env) (st : Store) : Prop :=
  valid_oid (new_oid e) ∧
  ∀ c d, d ∈ db st c → d !! "_id" ≠ Some (VOid (new_oid e)).

Inductive reachable : Store -> Prop :=
  | reachable_empty : reachable empty_store
  | reachable_step e st req :
      reachable st → fresh e st → reachable (app e st req).2.

(** A sequence of requests, each with its environment. *)
Fixpoint run (st : Store) (trace : list (Env * request)) : Store :=
  match trace with
  | [] => st
  | (e, req) :: trace' => run (app e st req).2 trace'
  end.

(** ** Serialized records *)

(** [r] is the public form of the stored document [d]: the identifier moved
    from [_id] to [id], as a string. *)
Definition public_form (d r : doc) : Prop :=
  ∃ o, d !! "_id" = Some (VOid o) ∧
       r = <["id" := VStr (str_oid o)]> (delete "_id" d).

(** The records a response carries. *)
Definition records_of (resp : response) : list (option doc) :=
  match resp with
  | RespRecord obj => [obj]
  | RespRecords items => Some <$> items
  | RespDict _ | RespShareLink _ _ => []
  end.

(** ** Bodies that break a schema constraint

    A required field is missing; an enum field has a value outside its
    allowed set; an int field has a value that stands for an int (itself, or
    after conversion) outside its bounds. *)

Inductive violation (e : Env) (body : doc) : field -> Prop :=
  | required_missing f :
      fdefault f = Required → body !! fname f = None → violation e body f
  | enum_outside name allowed dflt v :
      body !! name = Some v → v ∉ VStr <$> allowed →
      violation e body (Field name (Plain (TLiteral allowed)) dflt)
  | int_out_of_range name ge le dflt v z :
      body !! name = Some v → as_int e v = Some z → (z < ge ∨ le < z)%Z →
      violation e body (Field name (Plain (TInt ge le)) dflt).

Definition violates (e : Env) (sch : schema) (body : doc) : Prop :=
  ∃ f, f ∈ sch ∧ violation e body f.

(** The model and the body of a create request. *)
Definition create_request (req : request) : option (schema * doc) :=
  match req with
  | POST_tournaments body => Some (Tournament, body)
  | POST_register _ body => Some (Participant, body)
  | POST_matches _ body => Some (Match, body)
  | _ => None
  end.

(** The share code [create_tournament] stores: the supplied one when it is
    truthy, a generated one otherwise. *)
Definition stored_share_code (e : Env) (payload : doc) : value :=
  if truthy (dict_get payload "share_code")
  then dict_get payload "share_code"
  else VStr (token_hex e 3).


(** ** Sample data *)

Module Sample.

Definition oid_a : ObjectId := repeat xaa 12.
Definition oid_b : ObjectId := repeat xbb 12.
Definition oid_c : ObjectId := repeat xcc 12.

Definition draw (n : nat) : byte :=
  match n with
  | 0 => x01
  | 1 => xfe
  | _ => x9c
  end.

(** Conversions for the samples: the string "48" and the floats [m * 2^0]
    as ints, an int as a timestamp. *)
Definition to_int (v : value) : option Z :=
  match v with
  | VStr "48" => Some 48%Z
  | VFloat (FFinite m 0) => Some m
  | _ => None
  end.

Definition to_datetime (v : value) : option Z :=
  match v with
  | VInt z => Some z
  | _ => None
  end.

Definition env_a : Env :=
  mkEnv oid_a draw None None "tournaments" to_int to_datetime.
Definition env_b : Env :=
  mkEnv oid_b draw None None "tournaments" to_int to_datetime.
Definition env_c : Env :=
  mkEnv oid_c draw None None "tournaments" to_int to_datetime.

(** [{"title": "Squad Cup", "mode": "Squad"}] *)
Definition squad_cup : doc :=
  <["title" := VStr "Squad Cup"]> (<["mode" := VStr "Squad"]> ∅).

(** [{"tournament_id": "anything", "name": "Asha"}] *)
Definition player : doc :=
  <["tournament_id" := VStr "anything"]> (<["name" := VStr "Asha"]> ∅).

(** [{"tournament_id": "anything", "round_name": "Finals"}] *)
Definition final : doc :=
  <["tournament_id" := VStr "anything"]> (<["round_name" := VStr "Finals"]> ∅).

(** One tournament, with id [aaaaaaaaaaaaaaaaaaaaaaaa] and share code
    [01fe9c]; then one participant registered through the share code; then
    one match created through the id. *)
Definition st1 : Store := (app env_a empty_store (POST_tournaments squad_cup)).2.
Definition st2 : Store := (app env_b st1 (POST_register "01fe9c" player)).2.
Definition st3 : Store :=
  (app env_c st2 (POST_matches "aaaaaaaaaaaaaaaaaaaaaaaa" final)).2.

Definition the_tournament : doc := default ∅ (head (tournaments st3)).
Definition the_participant : doc := default ∅ (head (participants st3)).
Definition the_match : doc := default ∅ (head (matches st3)).

(** The record the creation of [squad_cup] answers with. *)
Definition squad_cup_record : doc :=
  match (app env_a empty_store (POST_tournaments squad_cup)).1 with
  | Ok (RespRecord (Some r)) => r
  | _ => ∅
  end.

End Sample.

(** ** Further notions used by the properties of the handlers *)

(** The names a model declares. *)
Definition field_names (sch : schema) : gset string :=
  list_to_set (fname <$> sch).

(** [d] names, in [tournament_id], the identifier of a stored tournament. *)
Definition refers_to_tournament (st : Store) (d : doc) : Prop :=
  ∃ t o, t ∈ tournaments st ∧ t !! "_id" = Some (VOid o) ∧
         d !! "tournament_id" = Some (VStr (str_oid o)).

Definition referential_integrity (st : Store) : Prop :=
  ∀ d, d ∈ participants st ∨ d ∈ matches st → refers_to_tournament st d.

(** The value the list endpoints filter [tournament_id] by: the reference
    itself when it is 24 characters long, the string of the [_id] of the
    tournament found by share code otherwise. *)
Definition listing_key (st : Store) (reference : string) : result string :=
  if Nat.eqb (String.length reference) 24 then Ok reference
  else t ← resolve_tournament st reference; Ok (py_str (dict_get t "_id")).

(** The collection a create request writes to. *)
Definition created_collection (req : request) : option collection :=
  match req with
  | POST_tournaments _ => Some tournament
  | POST_register _ _ => Some participant
  | POST_matches _ _ => Some match_
  | _ => None
  end.

(** The tournament reference in the path of a request. *)
Definition reference_of (req : request) : option string :=
  match req with
  | GET_tournament r | POST_register r _ | GET_participants r
  | POST_matches r _ | GET_matches r | GET_share r => Some r
  | _ => None
  end.

(** [ObjectId] makes of a 24-character string with white space in it an
    identifier of fewer than twelve bytes.  What the driver and the store do
    with such an identifier in a query is not in the sources.  A reference is
    sound when it does not lead to one: it does not parse, or it parses to
    twelve bytes. *)
Definition sound_reference (reference : string) : Prop :=
  match ObjectId_of_str reference with
  | Some o => valid_oid o
  | None => True
  end.

#[global] Instance sound_reference_dec reference :
  Decision (sound_reference reference).
Proof.
  unfold sound_reference, valid_oid.
  destruct (ObjectId_of_str reference); apply _.
Defined.

Definition sound_request (req : request) : Prop :=
  match reference_of req with
  | Some reference => sound_reference reference
  | None => True
  end.

#[global] Instance sound_request_dec req : Decision (sound_request req).
Proof. unfold sound_request. destruct (reference_of req); apply _. Defined.

(** The documents a sequence of requests has added to a collection: what the
    collection holds after the documents it held before. *)
Definition created_since (st : Store) (trace : list (Env * request))
    (c : collection) : list doc :=
  drop (length (db st c)) (db (run st trace) c).

(** The model whose documents a collection holds. *)
Definition model_of (c : collection) : schema :=
  match c with
  | tournament => Tournament
  | participant => Participant
  | match_ => Match
  end.

(** Every stored document has the fields of its model and [_id], no other. *)
Definition stored_shape (st : Store) : Prop :=
  ∀ c d, d ∈ db st c → dom d = field_names (model_of c) ∪ {["_id"]}.

Module Sample2.

(** A second tournament that asks for the share code of the first. *)
Definition oid_d : ObjectId := repeat xdd 12.
Definition env_d : Env :=
  mkEnv oid_d Sample.draw None None "tournaments"
        Sample.to_int Sample.to_datetime.

Definition duo_cup : doc :=
  <["title" := VStr "Duo Cup"]> (<["mode" := VStr "Duo"]>
    (<["share_code" := VStr "01fe9c"]> ∅)).

Definition st4 : Store :=
  (app env_d Sample.st3 (POST_tournaments duo_cup)).2.

Definition the_second : doc := default ∅ (tournaments st4 !! 1).

(** A tournament whose chosen share code is 24 characters long. *)
Definition long_code : string := "grand-finals-2025-season".

Definition long_cup : doc :=
  <["title" := VStr "Long Cup"]> (<["share_code" := VStr long_code]> ∅).

Definition st5 : Store :=
  (app env_d Sample.st3 (POST_tournaments long_cup)).2.

Definition the_long : doc := default ∅ (tournaments st5 !! 1).

End Sample2.
(** * Properties *)

(** A closed decidable proposition, decided by evaluation. *)
Ltac vm_decide := match goal with |- ?P => apply (bool_decide_unpack P); vm_compute; exact I end.

(** ** Hexadecimal text and ObjectIds *)

Section HexFacts.

Lemma fromhex_of_byte (b : byte) (s : string) :
  Hex.fromhex (Hex.of_byte b ++ s) =
  match Hex.fromhex s with Some bs => Some (b :: bs) | None => None end.
Proof. destruct b; reflexivity. Qed.

Lemma fromhex_hexlify (bs : list byte) :
  Hex.fromhex (Hex.hexlify bs) = Some bs.
Proof.
  induction bs as [|b bs IH]; [reflexivity|].
  cbn [Hex.hexlify]. by rewrite fromhex_of_byte, IH.
Qed.

Lemma length_hexlify (bs : list byte) :
  String.length (Hex.hexlify bs) = 2 * length bs.
Proof.
  induction bs as [|b bs IH]; [reflexivity|].
  change (S (S (String.length (Hex.hexlify bs))) = 2 * S (length bs)).
  rewrite IH. lia.
Qed.

(** Every character of an accepted string is white space or one of the two
    digits of a byte. *)
Lemma fromhex_length_lt (n : nat) :
  ∀ s bs, String.length s < n →
    Hex.fromhex s = Some bs →
    String.length s = 2 * length bs + Hex.count_space s.
Proof.
  induction n as [|n IH]; intros s bs Hn; [lia|].
  destruct s as [|c1 rest1]; cbn [Hex.fromhex Hex.count_space].
  - intros [= <-]. reflexivity.
  - cbn [String.length] in Hn. destruct (Hex.is_space c1) eqn:Hsp.
    + intros Hrest. cbn [String.length].
      rewrite (IH rest1 bs); [lia|lia|done].
    + destruct rest1 as [|c2 rest]; [discriminate|].
      destruct (Hex.value_of c1) as [h|] eqn:Hh; [|discriminate].
      destruct (Hex.value_of c2) as [l|] eqn:Hl; [|discriminate].
      destruct (Byte.of_N _); try discriminate.
      destruct (Hex.fromhex rest) as [bs'|] eqn:Hrest; try discriminate.
      intros [= <-].
      assert (Hex.is_space c2 = false) as Hsp2.
      { revert Hl. unfold Hex.value_of, Hex.is_space.
        destruct c2 as [[] [] [] [] [] [] [] []]; vm_compute; congruence. }
      cbn [String.length length Hex.count_space] in *. rewrite Hsp2.
      rewrite (IH rest bs'); [lia|lia|done].
Qed.

Lemma fromhex_length (s : string) (bs : list byte) :
  Hex.fromhex s = Some bs →
  String.length s = 2 * length bs + Hex.count_space s.
Proof. apply (fromhex_length_lt (S (String.length s))). lia. Qed.

Lemma value_of_lt (c : ascii) (h : N) :
  Hex.value_of c = Some h → (h < 16)%N.
Proof.
  destruct c as [[] [] [] [] [] [] [] []]; vm_compute;
    intros [= <-] || discriminate; reflexivity.
Qed.

(** A string of hexadecimal digits, an even number of them, is accepted. *)
Lemma fromhex_digits_lt (n : nat) :
  ∀ s, String.length s < n → Nat.Even (String.length s) →
    Hex.all_chars Hex.is_digit s = true → is_Some (Hex.fromhex s).
Proof.
  induction n as [|n IH]; intros s Hn Heven Hdigits; [lia|].
  destruct s as [|c1 [|c2 rest]]; cbn [Hex.fromhex].
  - by eexists.
  - destruct Heven as [k Hk]. cbn in Hk. lia.
  - cbn [Hex.all_chars] in Hdigits.
    apply andb_prop in Hdigits as [H1 [H2 Hrest]%andb_prop].
    unfold Hex.is_digit in H1, H2.
    destruct (Hex.value_of c1) as [h|] eqn:Hh; [|discriminate].
    destruct (Hex.value_of c2) as [l|] eqn:Hl; [|discriminate].
    assert (Hex.is_space c1 = false) as ->.
    { revert Hh. unfold Hex.value_of, Hex.is_space.
      destruct c1 as [[] [] [] [] [] [] [] []]; vm_compute; congruence. }
    pose proof (value_of_lt _ _ Hh). pose proof (value_of_lt _ _ Hl).
    destruct (Byte.of_N (16 * h + l)) as [b|] eqn:Hb;
      [|apply Byte.of_N_None_iff in Hb; lia].
    destruct (IH rest) as [bs ->]; [cbn in Hn; lia| |done|by eexists].
    destruct Heven as [k Hk]. exists (k - 1). cbn in Hk. lia.
Qed.

Lemma lower_of_byte (b : byte) (s : string) :
  Hex.all_chars Hex.is_lower_digit (Hex.of_byte b ++ s) =
  Hex.all_chars Hex.is_lower_digit s.
Proof. destruct b; reflexivity. Qed.

Lemma hexlify_lower (bs : list byte) :
  Hex.all_chars Hex.is_lower_digit (Hex.hexlify bs) = true.
Proof.
  induction bs as [|b bs IH]; [reflexivity|].
  cbn [Hex.hexlify]. by rewrite lower_of_byte.
Qed.

Lemma hexlify_inj (bs1 bs2 : list byte) :
  Hex.hexlify bs1 = Hex.hexlify bs2 → bs1 = bs2.
Proof.
  intros H. apply (f_equal Hex.fromhex) in H.
  rewrite !fromhex_hexlify in H. congruence.
Qed.

(** [ObjectId(str(o)) == o] *)
Lemma ObjectId_of_str_oid (o : ObjectId) :
  valid_oid o → ObjectId_of_str (str_oid o) = Some o.
Proof.
  unfold valid_oid, ObjectId_of_str, str_oid. intros Hlen.
  rewrite length_hexlify, Hlen. cbn. apply fromhex_hexlify.
Qed.

(** The bytes of a parsed ObjectId: twelve, less one for every two white
    space characters of the string. *)
Lemma ObjectId_of_str_bytes (s : string) (o : ObjectId) :
  ObjectId_of_str s = Some o → 2 * length o + Hex.count_space s = 24.
Proof.
  unfold ObjectId_of_str.
  destruct (Nat.eqb_spec (String.length s) 24) as [Hlen|]; [|discriminate].
  intros H%fromhex_length. lia.
Qed.

Lemma ObjectId_of_str_digits (s : string) :
  String.length s = 24 → Hex.all_chars Hex.is_digit s = true →
  ∃ o, ObjectId_of_str s = Some o ∧ valid_oid o.
Proof.
  intros Hlen Hdigits. unfold ObjectId_of_str. rewrite Hlen. cbn [Nat.eqb].
  destruct (fromhex_digits_lt 25 s) as [o Ho]; [lia|exists 12; lia|done|].
  exists o. split; [done|].
  pose proof (fromhex_length _ _ Ho) as Hbytes.
  assert (Hex.count_space s = 0) as Hnone; [|unfold valid_oid; lia].
  clear -Hdigits. induction s as [|c s IH]; [done|].
  cbn in Hdigits |- *. apply andb_prop in Hdigits as [Hc Hs].
  rewrite (IH Hs). unfold Hex.is_digit in Hc.
  destruct (Hex.value_of c) eqn:Hv; [|discriminate].
  assert (Hex.is_space c = false) as ->; [|done].
  revert Hv. unfold Hex.value_of, Hex.is_space.
  destruct c as [[] [] [] [] [] [] [] []]; vm_compute; congruence.
Qed.

Lemma ObjectId_of_str_length (s : string) (o : ObjectId) :
  ObjectId_of_str s = Some o → String.length s = 24.
Proof.
  unfold ObjectId_of_str.
  destruct (Nat.eqb_spec (String.length s) 24); [done|discriminate].
Qed.

Lemma length_str_oid (o : ObjectId) :
  valid_oid o → String.length (str_oid o) = 24.
Proof. unfold valid_oid, str_oid. rewrite length_hexlify. lia. Qed.

Lemma str_oid_nonempty (o : ObjectId) : valid_oid o → str_oid o ≠ "".
Proof. intros H%length_str_oid E. rewrite E in H. discriminate. Qed.

End HexFacts.

(** ** Queries *)

Section Queries.

Implicit Types (docs : list doc) (d : doc) (q : query) (k : string) (v : value).

Lemma satisfies_single k v d :
  satisfies [(k, v)] d = true ↔ d !! k = Some v.
Proof.
  unfold satisfies. cbn. rewrite andb_true_r. apply bool_decide_eq_true.
Qed.

Lemma find_one_Some docs q d :
  find_one docs q = Some d → d ∈ docs ∧ satisfies q d = true.
Proof.
  unfold find_one. intros [Hin Hsat]%find_some.
  by rewrite list_elem_of_In.
Qed.

Lemma find_one_None docs q :
  find_one docs q = None ↔ ∀ d, d ∈ docs → satisfies q d = false.
Proof.
  unfold find_one. split.
  - intros H d Hd%list_elem_of_In. by apply (find_none _ _ H).
  - intros H. induction docs as [|d docs IH]; [done|]. cbn.
    rewrite (H d) by left. apply IH. intros d' Hd'. apply H. by right.
Qed.

Lemma find_one_single_None docs k v :
  (∀ d, d ∈ docs → d !! k ≠ Some v) → find_one docs [(k, v)] = None.
Proof.
  intros H. apply find_one_None. intros d Hd.
  apply not_true_is_false. rewrite satisfies_single. by apply H.
Qed.

(** A document found by a one-field filter has that field, so it is not the
    empty dict: [not doc] is then the test for [None]. *)
Lemma falsy_find_one docs k v :
  falsy (find_one docs [(k, v)]) =
  match find_one docs [(k, v)] with Some _ => false | None => true end.
Proof.
  destruct (find_one docs [(k, v)]) as [d|] eqn:H; [|done].
  apply find_one_Some in H as [_ H%satisfies_single].
  cbn. apply bool_decide_eq_false. intros ->. by rewrite lookup_empty in H.
Qed.

(** The first match is the only match. *)
Lemma find_one_unique docs k v d :
  d ∈ docs → d !! k = Some v →
  (∀ d', d' ∈ docs → d' !! k = Some v → d' = d) →
  find_one docs [(k, v)] = Some d.
Proof.
  intros Hin Hk Huniq.
  destruct (find_one docs [(k, v)]) as [d'|] eqn:H.
  - apply find_one_Some in H as [Hin' H'%satisfies_single].
    f_equal. by apply Huniq.
  - rewrite find_one_None in H. specialize (H d Hin).
    apply satisfies_single in Hk. congruence.
Qed.

Lemma find_one_app_new docs k v d :
  (∀ d', d' ∈ docs → d' !! k ≠ Some v) → d !! k = Some v →
  find_one (docs ++ [d]) [(k, v)] = Some d.
Proof.
  intros Hfresh Hk. apply find_one_unique; [set_solver|done|].
  intros d' Hd' Hk'. apply elem_of_app in Hd'.
  destruct Hd' as [Hold|Hnew].
  - by destruct (Hfresh d' Hold).
  - by apply list_elem_of_singleton in Hnew.
Qed.

Lemma find_one_app_is_Some docs k v d :
  d !! k = Some v →
  ∃ d', find_one (docs ++ [d]) [(k, v)] = Some d' ∧
        d' ∈ (docs ++ [d])%list ∧ d' !! k = Some v.
Proof.
  intros Hk. destruct (find_one (docs ++ [d]) [(k, v)]) as [d'|] eqn:H.
  - exists d'. apply find_one_Some in H as [? ?%satisfies_single]. done.
  - rewrite find_one_None in H. specialize (H d).
    apply satisfies_single in Hk. rewrite H in Hk; [done|set_solver].
Qed.

Lemma get_documents_elem st c q d :
  d ∈ get_documents st c q ↔ d ∈ db st c ∧ satisfies q d = true.
Proof.
  unfold get_documents. rewrite !list_elem_of_In, filter_In.
  reflexivity.
Qed.

End Queries.

(** ** Validation *)

Section Validation.

Context {e : Env}.
Implicit Types (sch : schema) (body payload : doc) (f : field).

(** A validated payload holds exactly the declared fields, each with its
    validated value. *)
Lemma model_validate_lookup sch body payload k :
  model_validate e sch body = Some payload →
  payload !! k =
  match field_named k sch with
  | Some f => validate_field e f body
  | None => None
  end.
Proof.
  revert payload. induction sch as [|f sch IH]; intros payload; cbn.
  - intros [= <-]. apply lookup_empty.
  - destruct (validate_field e f body) as [v|] eqn:Hv; [|done].
    destruct (model_validate e sch body) as [p'|]; [|done].
    intros [= <-]. case_bool_decide as Hk.
    + subst k. by rewrite lookup_insert_eq.
    + rewrite lookup_insert_ne by done. by apply IH.
Qed.

Lemma model_validate_field sch body payload f :
  model_validate e sch body = Some payload → f ∈ sch →
  is_Some (validate_field e f body).
Proof.
  revert payload. induction sch as [|f' sch IH]; intros payload; cbn.
  - intros _ H. by apply elem_of_nil in H.
  - destruct (validate_field e f' body) as [v|] eqn:Hv; [|done].
    destruct (model_validate e sch body) as [p'|]; [|done].
    intros _ [->|Hin]%elem_of_cons; [by rewrite Hv|]. by eapply IH.
Qed.

Lemma model_validate_fails sch body f :
  f ∈ sch → validate_field e f body = None → model_validate e sch body = None.
Proof.
  intros Hin Hf.
  destruct (model_validate e sch body) as [p|] eqn:H; [|done].
  destruct (model_validate_field _ _ _ _ H Hin) as [v Hv]. congruence.
Qed.

(** A field typed [Optional[str]] holds [None] or a string. *)
Lemma validate_optional_str k dflt body v :
  validate_field e (Field k (Optional TStr) (Default dflt)) body = Some v →
  v = dflt ∨ v = VNone ∨ ∃ s, v = VStr s.
Proof.
  unfold validate_field. cbn [fname fannot fdefault validate_annot validate_base].
  destruct (body !! k) as [w|]; [|intros [= <-]; by left].
  case_bool_decide as Hw.
  - intros [= <-]. right. by left.
  - destruct w; try discriminate. intros [= <-]. right. right. by eexists.
Qed.

End Validation.

(** ** The handlers against the resolution rule *)

Section Resolution.

Implicit Types (st : Store) (e : Env) (ref : string) (payload : doc).

Ltac resolution :=
  unfold resolve_tournament, looks_like_internal_id, oid; intros;
  repeat (cbn -[find_one falsy String.length Nat.eqb];
          rewrite ?falsy_find_one;
          match goal with
          | |- context [Nat.eqb ?a ?b] => destruct (Nat.eqb a b)
          | |- context [ObjectId_of_str ?s] => destruct (ObjectId_of_str s)
          | |- context [find_one ?l ?q] => destruct (find_one l q)
          end);
  try reflexivity.

Lemma get_tournament_resolves st ref :
  get_tournament st ref =
  t ← resolve_tournament st ref; Ok (RespRecord (Some (to_str_id t))).
Proof. unfold get_tournament. resolution. Qed.

Lemma get_share_link_resolves e st ref :
  get_share_link e st ref =
  t ← resolve_tournament st ref;
  match dict_get t "share_code" with
  | VStr c =>
      Ok (RespShareLink
            (default "http://localhost:3000" (FRONTEND_URL e) ++ "/?t=" ++ c) c)
  | _ => Raise InternalError
  end.
Proof.
  unfold get_share_link, dict_get. resolution;
    cbn; by destruct (_ !! "share_code") as [[]|].
Qed.

Lemma register_participant_resolves e st ref payload :
  register_participant e st ref payload =
  match resolve_tournament st ref with
  | Raise err => (Raise err, st)
  | Ok t =>
      let data :=
        <["tournament_id" := VStr (py_str (dict_get t "_id"))]> payload in
      let st' := insert_one participant (<["_id" := VOid (new_oid e)]> data) st in
      match ObjectId_of_str (str_oid (new_oid e)) with
      | None => (Raise InternalError, st')
      | Some o =>
          (Ok (RespRecord
                 (to_str_id <$> find_one (db st' participant) [("_id", VOid o)])),
           st')
      end
  end.
Proof. unfold register_participant, dict_get, model_dump. resolution. Qed.

Lemma create_match_resolves e st ref payload :
  create_match e st ref payload =
  match resolve_tournament st ref with
  | Raise err => (Raise err, st)
  | Ok t =>
      let data :=
        <["tournament_id" := VStr (py_str (dict_get t "_id"))]> payload in
      let st' := insert_one match_ (<["_id" := VOid (new_oid e)]> data) st in
      match ObjectId_of_str (str_oid (new_oid e)) with
      | None => (Raise InternalError, st')
      | Some o =>
          (Ok (RespRecord
                 (to_str_id <$> find_one (db st' match_) [("_id", VOid o)])),
           st')
      end
  end.
Proof. unfold create_match, dict_get, model_dump. resolution. Qed.

Lemma resolve_malformed st ref :
  malformed ref → resolve_tournament st ref = Raise BadRequest.
Proof.
  intros [Hlen Hparse]. unfold resolve_tournament, looks_like_internal_id.
  by rewrite Hlen, Hparse.
Qed.

Lemma resolve_unmatched st ref :
  unmatched st ref → resolve_tournament st ref = Raise NotFound.
Proof.
  unfold resolve_tournament, looks_like_internal_id.
  intros [(o & Hparse & _ & Hnone)|[Hlen Hnone]].
  - rewrite (ObjectId_of_str_length _ _ Hparse), Hparse. cbn [Nat.eqb db].
    by rewrite find_one_single_None.
  - apply Nat.eqb_neq in Hlen. rewrite Hlen. cbn [db].
    by rewrite find_one_single_None.
Qed.

Lemma resolve_Ok st ref t :
  resolve_tournament st ref = Ok t → t ∈ tournaments st.
Proof.
  unfold resolve_tournament. destruct (looks_like_internal_id ref).
  - destruct (ObjectId_of_str ref); [|done].
    destruct (find_one _ _) eqn:H; [|done].
    intros [= <-]. by apply find_one_Some in H as [? _].
  - destruct (find_one _ _) eqn:H; [|done].
    intros [= <-]. by apply find_one_Some in H as [? _].
Qed.

End Resolution.

(** ** What a request does to the store *)

Section StoreEffects.

Implicit Types (st : Store) (e : Env) (c : collection) (d : doc).

Lemma db_insert_one_same c d st :
  db (insert_one c d st) c = (db st c ++ [d])%list.
Proof. by destruct c. Qed.

Lemma db_insert_one_other c c' d st :
  c ≠ c' → db (insert_one c d st) c' = db st c'.
Proof. by destruct c, c'. Qed.

Lemma db_insert_one_prefix c c' d st :
  ∃ added, db (insert_one c d st) c' = (db st c' ++ added)%list ∧
           (length added ≤ 1)%nat.
Proof.
  destruct c, c'; cbn; first
    [ by (exists [d]; split; [reflexivity|cbn; lia])
    | by (exists []; rewrite app_nil_r; split; [reflexivity|cbn; lia]) ].
Qed.

Lemma length_token_hex e n : String.length (token_hex e n) = 2 * n.
Proof.
  unfold token_hex, token_bytes.
  by rewrite length_hexlify, length_map, length_seq.
Qed.

Lemma token_hex_nonempty e : token_hex e 3 ≠ "".
Proof.
  intros H. pose proof (length_token_hex e 3) as Hlen.
  rewrite H in Hlen. discriminate.
Qed.

Lemma stored_share_code_falsy e payload :
  truthy (dict_get payload "share_code") = false →
  stored_share_code e payload = VStr (token_hex e 3).
Proof. intros H. unfold stored_share_code. by rewrite H. Qed.

Lemma stored_share_code_nonempty e body payload :
  model_validate e Tournament body = Some payload →
  ∃ code, stored_share_code e payload = VStr code ∧ code ≠ "".
Proof.
  intros Hval. unfold stored_share_code, dict_get.
  rewrite (model_validate_lookup _ _ _ "share_code" Hval).
  change (field_named "share_code" Tournament)
    with (Some (Field "share_code" (Optional TStr) (Default VNone))).
  cbv beta iota.
  destruct (validate_field e _ body) as [v|] eqn:Hv; cbn.
  - apply validate_optional_str in Hv as [->|[->|[s ->]]]; cbn;
      try (eexists; split; [reflexivity|apply token_hex_nonempty]).
    case_bool_decide as Hs; cbn.
    + eexists; split; [reflexivity|apply token_hex_nonempty].
    + by exists s.
  - eexists; split; [reflexivity|apply token_hex_nonempty].
Qed.

(** Every request leaves the store as it was, or appends one document that
    carries the identifier the store assigned. *)
Lemma app_inserts_or_reads e st req :
  (app e st req).2 = st ∨
  ∃ c data,
    (app e st req).2 = insert_one c (<["_id" := VOid (new_oid e)]> data) st ∧
    (c = tournament →
     ∃ code, data !! "share_code" = Some (VStr code) ∧ code ≠ "").
Proof.
  destruct req as [| | |body|tid|tid body|tid|tid body|tid|tid|code];
    cbn; try by left.
  - unfold with_body.
    destruct (model_validate e Tournament body) as [payload|] eqn:Hval;
      [|by left].
    right. exists tournament.
    exists (<["share_code" := stored_share_code e payload]> payload).
    split.
    + unfold create_tournament, create_document, model_dump, stored_share_code.
      by destruct (ObjectId_of_str _).
    + intros _.
      destruct (stored_share_code_nonempty e _ _ Hval) as (code & -> & Hne).
      exists code. by rewrite lookup_insert_eq.
  - unfold with_body. destruct (model_validate e Participant body); [|by left].
    rewrite register_participant_resolves.
    destruct (resolve_tournament st tid); [|by left].
    right. eexists participant, _. split; [|done].
    cbn. by destruct (ObjectId_of_str _).
  - unfold with_body. destruct (model_validate e Match body); [|by left].
    rewrite create_match_resolves.
    destruct (resolve_tournament st tid); [|by left].
    right. eexists match_, _. split; [|done].
    cbn. by destruct (ObjectId_of_str _).
Qed.

Lemma unique_ids_snoc (docs : list doc) d :
  unique_ids docs →
  (∀ d', d' ∈ docs → d' !! "_id" ≠ d !! "_id") →
  unique_ids (docs ++ [d]).
Proof.
  intros Huniq Hfresh i j d1 d2 Hi Hj Heq.
  apply lookup_app_Some in Hi as [Hi|[Hi Hi']];
    apply lookup_app_Some in Hj as [Hj|[Hj Hj']].
  - by eapply Huniq.
  - apply list_lookup_singleton_Some in Hj' as [_ <-].
    destruct (Hfresh d1); [by eapply list_elem_of_lookup_2|done].
  - apply list_lookup_singleton_Some in Hi' as [_ <-].
    destruct (Hfresh d2); [by eapply list_elem_of_lookup_2|done].
  - apply list_lookup_singleton_Some in Hi' as [Hi' _].
    apply list_lookup_singleton_Some in Hj' as [Hj' _]. lia.
Qed.

Lemma store_wf_empty : store_wf empty_store.
Proof.
  split.
  - intros [] d H; by apply elem_of_nil in H.
  - intros [] i j d1 d2 H; by destruct i.
  - intros d H; by apply elem_of_nil in H.
Qed.

Lemma store_wf_insert_one c data e st :
  store_wf st → fresh e st →
  (c = tournament →
   ∃ code, data !! "share_code" = Some (VStr code) ∧ code ≠ "") →
  store_wf (insert_one c (<["_id" := VOid (new_oid e)]> data) st).
Proof.
  intros [Hoid Huniq Hshare] [Hvalid Hfresh] Hcode. split.
  - intros c' d. destruct (decide (c = c')) as [<-|Hne].
    + rewrite db_insert_one_same. intros [Hd|Hd]%elem_of_app; [by eapply Hoid|].
      apply list_elem_of_singleton in Hd as ->.
      exists (new_oid e). by rewrite lookup_insert_eq.
    + rewrite db_insert_one_other by done. apply Hoid.
  - intros c'. destruct (decide (c = c')) as [<-|Hne].
    + rewrite db_insert_one_same. apply unique_ids_snoc; [apply Huniq|].
      intros d' Hd'. rewrite lookup_insert_eq. by eapply Hfresh.
    + rewrite db_insert_one_other by done. apply Huniq.
  - intros d. change (tournaments ?s) with (db s tournament).
    destruct (decide (c = tournament)) as [->|Hne].
    + rewrite db_insert_one_same. intros [Hd|Hd]%elem_of_app; [by apply Hshare|].
      apply list_elem_of_singleton in Hd as ->.
      destruct (Hcode eq_refl) as (code & Hc & Hne). exists code.
      by rewrite lookup_insert_ne.
    + rewrite db_insert_one_other by done. apply Hshare.
Qed.

Lemma app_store_wf e st req :
  store_wf st → fresh e st → store_wf (app e st req).2.
Proof.
  intros Hwf Hfresh.
  destruct (app_inserts_or_reads e st req) as [->|(c & data & -> & Hcode)];
    [done|]. by apply store_wf_insert_one.
Qed.

Lemma reachable_store_wf st : reachable st → store_wf st.
Proof.
  induction 1 as [|e st req _ IH Hfresh];
    [apply store_wf_empty|by apply app_store_wf].
Qed.

Lemma run_prefix trace :
  ∀ st c, ∃ added,
    db (run st trace) c = (db st c ++ added)%list ∧
    (length added ≤ length trace)%nat.
Proof.
  induction trace as [|[e req] trace IH]; intros st c; cbn [run].
  - exists []. by rewrite app_nil_r.
  - destruct (IH (app e st req).2 c) as (added & -> & Hlen).
    destruct (app_inserts_or_reads e st req) as [->|(c0 & data & -> & _)].
    + exists added. split; [done|cbn; lia].
    + destruct (db_insert_one_prefix c0 c (<["_id" := VOid (new_oid e)]> data) st)
        as (one & -> & Hone).
      exists (one ++ added)%list. rewrite app_assoc. split; [done|].
      rewrite length_app. cbn. lia.
Qed.

End StoreEffects.

(** ** Creating a document and reading it back *)

Section Creation.

Implicit Types (st : Store) (e : Env) (c : collection) (d data : doc).

Lemma to_str_id_oid d o :
  d !! "_id" = Some (VOid o) →
  to_str_id d = <["id" := VStr (str_oid o)]> (delete "_id" d).
Proof. intros H. unfold to_str_id, dict_get. by rewrite H. Qed.

Lemma public_form_lookup d r :
  public_form d r →
  r !! "_id" = None ∧ ∃ o, d !! "_id" = Some (VOid o) ∧
                           r !! "id" = Some (VStr (str_oid o)).
Proof.
  intros (o & Hid & ->). split.
  - rewrite lookup_insert_ne by done. apply lookup_delete_eq.
  - exists o. by rewrite lookup_insert_eq.
Qed.

(** The tail of the three create handlers: the document just inserted is the
    one read back, and it is returned in public form. *)
Lemma insert_then_fetch e st c data :
  fresh e st →
  let st' := insert_one c (<["_id" := VOid (new_oid e)]> data) st in
  match ObjectId_of_str (str_oid (new_oid e)) with
  | None => (Raise InternalError, st')
  | Some o =>
      (Ok (RespRecord (to_str_id <$> find_one (db st' c) [("_id", VOid o)])),
       st')
  end =
  (Ok (RespRecord
         (Some (<["id" := VStr (str_oid (new_oid e))]> (delete "_id" data)))),
   st').
Proof.
  intros [Hvalid Hfresh] st'. rewrite ObjectId_of_str_oid by done.
  subst st'. rewrite db_insert_one_same.
  rewrite (find_one_app_new _ _ _ (<["_id" := VOid (new_oid e)]> data));
    [|by apply Hfresh|by rewrite lookup_insert_eq].
  cbn. rewrite (to_str_id_oid _ (new_oid e)) by by rewrite lookup_insert_eq.
  by rewrite delete_insert_eq.
Qed.

Lemma create_tournament_returns e st payload :
  fresh e st →
  create_tournament e st payload =
  let data := <["share_code" := stored_share_code e payload]> payload in
  (Ok (RespRecord
         (Some (<["id" := VStr (str_oid (new_oid e))]> (delete "_id" data)))),
   insert_one tournament (<["_id" := VOid (new_oid e)]> data) st).
Proof.
  intros Hfresh. unfold create_tournament, create_document, model_dump.
  fold (stored_share_code e payload).
  apply (insert_then_fetch e st tournament _ Hfresh).
Qed.

Lemma validated_default {e} sch body payload k f v :
  model_validate e sch body = Some payload →
  field_named k sch = Some f → fname f = k → fdefault f = Default v →
  body !! k = None → payload !! k = Some v.
Proof.
  intros Hval Hf Hname Hdflt Hbody.
  rewrite (model_validate_lookup _ _ _ k Hval), Hf.
  unfold validate_field. by rewrite Hname, Hbody, Hdflt.
Qed.

Lemma validated_no_id {e} sch body payload :
  model_validate e sch body = Some payload →
  field_named "_id" sch = None → payload !! "_id" = None.
Proof. intros Hval Hf. by rewrite (model_validate_lookup _ _ _ _ Hval), Hf. Qed.

End Creation.

(** C4: for every valid Tournament payload, POST /api/tournaments stores a
    new document (the validated payload with its share code and the assigned
    [_id], appended to the tournaments) and returns that document in public
    form: a non-empty string [id], the string of the assigned identifier, and
    a present, non-empty [share_code].  A truthy share code of the body is
    kept; when the body supplies none the code is the generated one, six
    lower-case hexadecimal characters.  An omitted [status] is ["upcoming"]
    and an omitted [max_participants] is 48. *)
Theorem create_tournament_record e st body payload :
  fresh e st → model_validate e Tournament body = Some payload →
  ∃ r d id code,
    app e st (POST_tournaments body) =
      (Ok (RespRecord (Some r)), insert_one tournament d st) ∧
    d !! "_id" = Some (VOid (new_oid e)) ∧
    d !! "share_code" = Some (VStr code) ∧
    (∀ k, k ≠ "_id" → k ≠ "share_code" → d !! k = payload !! k) ∧
    r = <["id" := VStr id]> (delete "_id" d) ∧
    r !! "id" = Some (VStr id) ∧ id = str_oid (new_oid e) ∧ id ≠ "" ∧
    r !! "share_code" = Some (VStr code) ∧ code ≠ "" ∧
    (∀ s, body !! "share_code" = Some (VStr s) → s ≠ "" → code = s) ∧
    (body !! "share_code" = None →
       code = token_hex e 3 ∧ String.length code = 6 ∧
       Hex.all_chars Hex.is_lower_digit code = true) ∧
    (body !! "status" = None → r !! "status" = Some (VStr "upcoming")) ∧
    (body !! "max_participants" = None →
       r !! "max_participants" = Some (VInt 48)).
Proof.
  intros Hfresh Hval. cbn [app]. unfold with_body. rewrite Hval.
  rewrite create_tournament_returns by done. cbv zeta.
  destruct (stored_share_code_nonempty e _ _ Hval) as (code & Hcode & Hne).
  rewrite Hcode.
  exists (<["id" := VStr (str_oid (new_oid e))]>
            (delete "_id" (<["share_code" := VStr code]> payload))),
         (<["_id" := VOid (new_oid e)]>
            (<["share_code" := VStr code]> payload)),
         (str_oid (new_oid e)), code.
  split; [reflexivity|].
  split; [by rewrite lookup_insert_eq|].
  split; [by rewrite lookup_insert_ne, lookup_insert_eq|].
  split; [intros k Hk1 Hk2; by rewrite !lookup_insert_ne|].
  split; [by rewrite delete_insert_eq|].
  split; [by rewrite lookup_insert_eq|].
  split; [done|]. split; [apply str_oid_nonempty, Hfresh|].
  split; [by rewrite lookup_insert_ne, lookup_delete_ne, lookup_insert_eq|].
  split; [done|].
  assert (∀ v, payload !! "share_code" = Some v →
               truthy v = false → code = token_hex e 3) as Hfalsy.
  { intros v Hp Hv.
    assert (dict_get payload "share_code" = v) as Hget
      by (unfold dict_get; by rewrite Hp).
    rewrite stored_share_code_falsy in Hcode by by rewrite Hget.
    congruence. }
  split; [|split; [|split]].
  - intros s Hbody Hs.
    pose proof (model_validate_lookup _ _ _ "share_code" Hval) as Hp.
    change (field_named "share_code" Tournament)
      with (Some (Field "share_code" (Optional TStr) (Default VNone))) in Hp.
    cbv beta iota in Hp. unfold validate_field in Hp.
    cbn [fname fannot fdefault validate_annot validate_base is_str] in Hp.
    rewrite Hbody in Hp. rewrite bool_decide_eq_false_2 in Hp by done.
    assert (dict_get payload "share_code" = VStr s) as Hget
      by (unfold dict_get; by rewrite Hp).
    unfold stored_share_code in Hcode. rewrite Hget in Hcode.
    cbn [truthy] in Hcode.
    rewrite bool_decide_eq_false_2 in Hcode by done. cbn [negb] in Hcode.
    congruence.
  - intros Hbody.
    assert (payload !! "share_code" = Some VNone) as Hp
      by (by eapply validated_default).
    rewrite (Hfalsy _ Hp eq_refl).
    split; [done|]. split; [apply length_token_hex|apply hexlify_lower].
  - intros Hbody.
    rewrite lookup_insert_ne, lookup_delete_ne, lookup_insert_ne by done.
    by eapply validated_default.
  - intros Hbody.
    rewrite lookup_insert_ne, lookup_delete_ne, lookup_insert_ne by done.
    by eapply validated_default.
Qed.
(** ** The sample stores *)

(** The sample stores are evaluated only through [vm_decide]; proofs treat
    them as constants. *)
Opaque Sample.st1 Sample.st2 Sample.st3.
Opaque Sample.the_tournament Sample.the_participant Sample.the_match.
Opaque Sample.squad_cup Sample.squad_cup_record Sample.player Sample.final.

Section SampleFacts.

Import Sample.

Lemma fresh_empty e : valid_oid (new_oid e) → fresh e empty_store.
Proof. intros H. split; [done|]. intros [] d Hd; by apply elem_of_nil in Hd. Qed.

Lemma sample_tournaments :
  tournaments st1 = [the_tournament] ∧ tournaments st2 = [the_tournament] ∧
  tournaments st3 = [the_tournament].
Proof. repeat split; vm_decide. Qed.

Lemma sample_participants :
  participants st1 = [] ∧ participants st2 = [the_participant] ∧
  participants st3 = [the_participant].
Proof. repeat split; vm_decide. Qed.

Lemma sample_matches :
  matches st1 = [] ∧ matches st2 = [] ∧ matches st3 = [the_match].
Proof. repeat split; vm_decide. Qed.

Lemma sample_ids :
  the_tournament !! "_id" = Some (VOid oid_a) ∧
  the_participant !! "_id" = Some (VOid oid_b) ∧
  the_match !! "_id" = Some (VOid oid_c) ∧
  the_tournament !! "share_code" = Some (VStr "01fe9c").
Proof. repeat split; vm_decide. Qed.

Lemma sample_tournament_only st d :
  tournaments st = [the_tournament] → d ∈ tournaments st → d = the_tournament.
Proof. intros -> Hd. by apply list_elem_of_singleton in Hd. Qed.

Lemma fresh_b_st1 : fresh env_b st1.
Proof.
  split; [reflexivity|]. intros c d Hd Hid.
  destruct sample_tournaments as (Ht1 & _).
  destruct sample_participants as (Hp1 & _).
  destruct sample_matches as (Hm1 & _).
  destruct sample_ids as (Ha & _).
  destruct c; cbn [db] in Hd.
  - rewrite Ht1 in Hd. apply list_elem_of_singleton in Hd. subst d.
    rewrite Ha in Hid. discriminate Hid.
  - rewrite Hp1 in Hd. by apply elem_of_nil in Hd.
  - rewrite Hm1 in Hd. by apply elem_of_nil in Hd.
Qed.

Lemma fresh_c_st2 : fresh env_c st2.
Proof.
  split; [reflexivity|]. intros c d Hd Hid.
  destruct sample_tournaments as (_ & Ht2 & _).
  destruct sample_participants as (_ & Hp2 & _).
  destruct sample_matches as (_ & Hm2 & _).
  destruct sample_ids as (Ha & Hb & _).
  destruct c; cbn [db] in Hd.
  - rewrite Ht2 in Hd. apply list_elem_of_singleton in Hd. subst d.
    rewrite Ha in Hid. discriminate Hid.
  - rewrite Hp2 in Hd. apply list_elem_of_singleton in Hd. subst d.
    rewrite Hb in Hid. discriminate Hid.
  - rewrite Hm2 in Hd. by apply elem_of_nil in Hd.
Qed.

Lemma reachable_st1 : reachable st1.
Proof.
  assert (st1 = (app env_a empty_store (POST_tournaments squad_cup)).2) as ->
    by vm_decide.
  apply reachable_step; [constructor|by apply fresh_empty].
Qed.

Lemma reachable_st2 : reachable st2.
Proof.
  assert (st2 = (app env_b st1 (POST_register "01fe9c" player)).2) as ->
    by vm_decide.
  apply reachable_step; [apply reachable_st1|apply fresh_b_st1].
Qed.

Lemma reachable_st3 : reachable st3.
Proof.
  assert (st3 = (app env_c st2
                   (POST_matches "aaaaaaaaaaaaaaaaaaaaaaaa" final)).2) as ->
    by vm_decide.
  apply reachable_step; [apply reachable_st2|apply fresh_c_st2].
Qed.

End SampleFacts.

Lemma create_tournament_record_witness :
  ∃ r d id code,
    app Sample.env_a empty_store
        (POST_tournaments
           (<["max_participants" := VStr "48"]> Sample.squad_cup)) =
      (Ok (RespRecord (Some r)), insert_one tournament d empty_store) ∧
    d !! "_id" = Some (VOid (new_oid Sample.env_a)) ∧
    d !! "share_code" = Some (VStr code) ∧
    (∀ k, k ≠ "_id" → k ≠ "share_code" →
          d !! k =
          default ∅
            (model_validate Sample.env_a Tournament
               (<["max_participants" := VStr "48"]> Sample.squad_cup)) !! k) ∧
    r = <["id" := VStr id]> (delete "_id" d) ∧
    r !! "id" = Some (VStr id) ∧ id = str_oid (new_oid Sample.env_a) ∧
    id ≠ "" ∧
    r !! "share_code" = Some (VStr code) ∧ code ≠ "" ∧
    (∀ s, (<["max_participants" := VStr "48"]> Sample.squad_cup)
            !! "share_code" = Some (VStr s) → s ≠ "" → code = s) ∧
    ((<["max_participants" := VStr "48"]> Sample.squad_cup)
       !! "share_code" = None →
       code = token_hex Sample.env_a 3 ∧ String.length code = 6 ∧
       Hex.all_chars Hex.is_lower_digit code = true) ∧
    ((<["max_participants" := VStr "48"]> Sample.squad_cup) !! "status" = None →
       r !! "status" = Some (VStr "upcoming")) ∧
    ((<["max_participants" := VStr "48"]> Sample.squad_cup)
       !! "max_participants" = None →
       r !! "max_participants" = Some (VInt 48)).
Proof.
  apply (create_tournament_record Sample.env_a empty_store
           (<["max_participants" := VStr "48"]> Sample.squad_cup)).
  - apply fresh_empty. reflexivity.
  - vm_decide.
Defined.

(** The example of the specification: creating
    [{"title": "Squad Cup", "mode": "Squad"}]. *)
Example create_squad_cup :
  (app Sample.env_a empty_store (POST_tournaments Sample.squad_cup)).1 =
    Ok (RespRecord (Some Sample.squad_cup_record)) ∧
  Sample.squad_cup_record !! "id" = Some (VStr "aaaaaaaaaaaaaaaaaaaaaaaa") ∧
  Sample.squad_cup_record !! "_id" = None ∧
  Sample.squad_cup_record !! "title" = Some (VStr "Squad Cup") ∧
  Sample.squad_cup_record !! "mode" = Some (VStr "Squad") ∧
  Sample.squad_cup_record !! "status" = Some (VStr "upcoming") ∧
  Sample.squad_cup_record !! "max_participants" = Some (VInt 48) ∧
  Sample.squad_cup_record !! "share_code" = Some (VStr "01fe9c").
Proof. repeat split; vm_decide. Qed.

Section ShareCodes.

Implicit Types (st : Store) (e : Env) (body payload : doc).

Lemma validated_share_code_falsy {e} body payload :
  model_validate e Tournament body = Some payload →
  truthy (dict_get body "share_code") = false →
  truthy (dict_get payload "share_code") = false.
Proof.
  intros Hval Hfalsy. unfold dict_get in *.
  rewrite (model_validate_lookup _ _ _ "share_code" Hval).
  change (field_named "share_code" Tournament)
    with (Some (Field "share_code" (Optional TStr) (Default VNone))).
  cbv beta iota. unfold validate_field.
  cbn [fname fannot fdefault validate_annot validate_base].
  destruct (body !! "share_code") as [v|]; [|done].
  case_bool_decide; [done|]. by destruct (is_str v).
Qed.

Lemma reachable_share_codes st T :
  reachable st → T ∈ tournaments st →
  ∃ code, T !! "share_code" = Some (VStr code) ∧ code ≠ "".
Proof. intros Hreach%reachable_store_wf. apply (wf_share_code _ Hreach). Qed.

(** Creating a tournament from a body the model accepts. *)
Lemma post_tournaments_valid e st body payload :
  fresh e st → model_validate e Tournament body = Some payload →
  app e st (POST_tournaments body) =
  (Ok (RespRecord
         (Some (<["id" := VStr (str_oid (new_oid e))]>
                  (delete "_id"
                     (<["share_code" := stored_share_code e payload]> payload))))),
   insert_one tournament
     (<["_id" := VOid (new_oid e)]>
        (<["share_code" := stored_share_code e payload]> payload)) st).
Proof.
  intros Hfresh Hval. cbn [app]. unfold with_body. rewrite Hval.
  by rewrite create_tournament_returns.
Qed.

End ShareCodes.

(** C10: a share code supplied as the empty string, as [None], or not at all
    is replaced by a freshly generated code of six hexadecimal characters,
    in the response and in the store; and after the request no tournament of
    the store has an empty share code. *)
Theorem falsy_share_code_is_replaced e st body :
  reachable st → fresh e st →
  is_Some (model_validate e Tournament body) →
  truthy (dict_get body "share_code") = false →
  let out := app e st (POST_tournaments body) in
  (∃ r, out.1 = Ok (RespRecord (Some r)) ∧
        r !! "share_code" = Some (VStr (token_hex e 3))) ∧
  (∃ T, last (tournaments out.2) = Some T ∧
        T !! "share_code" = Some (VStr (token_hex e 3))) ∧
  String.length (token_hex e 3) = 6 ∧
  Hex.all_chars Hex.is_lower_digit (token_hex e 3) = true ∧
  ∀ T, T ∈ tournaments out.2 →
       ∃ code, T !! "share_code" = Some (VStr code) ∧ code ≠ "".
Proof.
  intros Hreach Hfresh [payload Hval] Hfalsy out.
  assert (reachable out.2) as Hout by by apply reachable_step.
  assert (stored_share_code e payload = VStr (token_hex e 3)) as Hcode
    by (apply stored_share_code_falsy; by eapply validated_share_code_falsy).
  subst out. rewrite (post_tournaments_valid _ _ _ _ Hfresh Hval) in *.
  rewrite Hcode in *. cbn [fst snd insert_one tournaments] in *.
  split; [|split; [|split; [|split]]].
  - eexists. split; [reflexivity|].
    by rewrite lookup_insert_ne, lookup_delete_ne, lookup_insert_eq.
  - eexists. split; [apply last_snoc|].
    by rewrite lookup_insert_ne, lookup_insert_eq.
  - apply length_token_hex.
  - apply hexlify_lower.
  - intros T HT. by apply (reachable_share_codes _ T Hout).
Qed.

Lemma falsy_share_code_is_replaced_witness :
  (∃ r, (app Sample.env_b Sample.st1
           (POST_tournaments (<["share_code" := VStr ""]> Sample.squad_cup))).1 =
          Ok (RespRecord (Some r)) ∧
        r !! "share_code" = Some (VStr (token_hex Sample.env_b 3))) ∧
  String.length (token_hex Sample.env_b 3) = 6.
Proof.
  destruct (falsy_share_code_is_replaced Sample.env_b Sample.st1
              (<["share_code" := VStr ""]> Sample.squad_cup))
    as (Hresp & _ & Hlen & _).
  - exact reachable_st1.
  - exact fresh_b_st1.
  - vm_decide.
  - vm_decide.
  - split; [exact Hresp|exact Hlen].
Defined.

(** C5: a created Participant or Match is returned and stored with
    [tournament_id] equal to the string form of the internal id of the
    tournament the path resolves to, by id or by share code, whatever
    [tournament_id] the body carries. *)
Theorem created_records_carry_resolved_id e st reference body t :
  store_wf st → fresh e st →
  resolve_tournament st reference = Ok t →
  ∃ o, t !! "_id" = Some (VOid o) ∧
    (is_Some (model_validate e Participant body) →
     ∃ r stored,
       app e st (POST_register reference body) =
         (Ok (RespRecord (Some r)), insert_one participant stored st) ∧
       r !! "tournament_id" = Some (VStr (str_oid o)) ∧
       stored !! "tournament_id" = Some (VStr (str_oid o))) ∧
    (is_Some (model_validate e Match body) →
     ∃ r stored,
       app e st (POST_matches reference body) =
         (Ok (RespRecord (Some r)), insert_one match_ stored st) ∧
       r !! "tournament_id" = Some (VStr (str_oid o)) ∧
       stored !! "tournament_id" = Some (VStr (str_oid o))).
Proof.
  intros Hwf Hfresh Hres.
  destruct (wf_oid _ Hwf tournament t (resolve_Ok _ _ _ Hres))
    as (o & Hid & _).
  exists o. split; [done|].
  split; intros [payload Hval]; cbn; unfold with_body; rewrite Hval.
  - rewrite register_participant_resolves, Hres. cbv zeta.
    rewrite (insert_then_fetch e st participant _ Hfresh).
    eexists _, _. split; [reflexivity|]. unfold dict_get. rewrite Hid. cbn.
    split.
    + by rewrite lookup_insert_ne, lookup_delete_ne, lookup_insert_eq.
    + by rewrite lookup_insert_ne, lookup_insert_eq.
  - rewrite create_match_resolves, Hres. cbv zeta.
    rewrite (insert_then_fetch e st match_ _ Hfresh).
    eexists _, _. split; [reflexivity|]. unfold dict_get. rewrite Hid. cbn.
    split.
    + by rewrite lookup_insert_ne, lookup_delete_ne, lookup_insert_eq.
    + by rewrite lookup_insert_ne, lookup_insert_eq.
Qed.

Lemma created_records_carry_resolved_id_witness :
  (∃ r stored,
     app Sample.env_b Sample.st1 (POST_register "01fe9c" Sample.player) =
       (Ok (RespRecord (Some r)), insert_one participant stored Sample.st1) ∧
     r !! "tournament_id" = Some (VStr (str_oid Sample.oid_a)) ∧
     stored !! "tournament_id" = Some (VStr (str_oid Sample.oid_a))) ∧
  (∃ r stored,
     app Sample.env_c Sample.st2
         (POST_matches "aaaaaaaaaaaaaaaaaaaaaaaa" Sample.final) =
       (Ok (RespRecord (Some r)), insert_one match_ stored Sample.st2) ∧
     r !! "tournament_id" = Some (VStr (str_oid Sample.oid_a)) ∧
     stored !! "tournament_id" = Some (VStr (str_oid Sample.oid_a))).
Proof.
  destruct sample_ids as (Ha & _).
  split.
  - destruct (created_records_carry_resolved_id Sample.env_b Sample.st1
                "01fe9c" Sample.player Sample.the_tournament)
      as (o & Hid & Hp & _).
    + exact (reachable_store_wf _ reachable_st1).
    + exact fresh_b_st1.
    + vm_decide.
    + rewrite Ha in Hid. injection Hid as <-.
      apply Hp. vm_decide.
  - destruct (created_records_carry_resolved_id Sample.env_c Sample.st2
                "aaaaaaaaaaaaaaaaaaaaaaaa" Sample.final Sample.the_tournament)
      as (o & Hid & _ & Hm).
    + exact (reachable_store_wf _ reachable_st2).
    + exact fresh_c_st2.
    + vm_decide.
    + rewrite Ha in Hid. injection Hid as <-.
      apply Hm. vm_decide.
Defined.

(** C3: for a stored tournament T whose share code no other tournament has
    and which is not 24 characters long, fetching by T's internal id and
    fetching by T's share code return the same record, the public form of
    T. *)
Theorem fetch_by_id_and_by_share_code st T o code :
  store_wf st → T ∈ tournaments st →
  T !! "_id" = Some (VOid o) →
  T !! "share_code" = Some (VStr code) →
  (∀ T', T' ∈ tournaments st → T' !! "share_code" = Some (VStr code) → T' = T) →
  String.length code ≠ 24 →
  get_tournament st (str_oid o) = Ok (RespRecord (Some (to_str_id T))) ∧
  get_tournament st code = Ok (RespRecord (Some (to_str_id T))).
Proof.
  intros Hwf HT Hid Hcode Huniq Hlen.
  destruct (wf_oid _ Hwf tournament T HT) as (o' & Hid' & Hvalid).
  assert (o' = o) as -> by congruence.
  rewrite !get_tournament_resolves.
  unfold resolve_tournament, looks_like_internal_id. split.
  - rewrite length_str_oid, ObjectId_of_str_oid by done. cbn [Nat.eqb db].
    rewrite (find_one_unique _ _ _ T); [done..|].
    intros T' HT' Hid''.
    apply list_elem_of_lookup in HT as [i Hi].
    apply list_elem_of_lookup in HT' as [j Hj].
    assert (j = i) as -> by (eapply (wf_unique _ Hwf tournament); eauto; congruence).
    cbn [db] in *. congruence.
  - apply Nat.eqb_neq in Hlen. rewrite Hlen. cbn [db].
    by rewrite (find_one_unique _ _ _ T).
Qed.

Lemma fetch_by_id_and_by_share_code_witness :
  get_tournament Sample.st3 (str_oid Sample.oid_a) =
    Ok (RespRecord (Some (to_str_id Sample.the_tournament))) ∧
  get_tournament Sample.st3 "01fe9c" =
    Ok (RespRecord (Some (to_str_id Sample.the_tournament))).
Proof.
  destruct sample_tournaments as (_ & _ & Ht3).
  destruct sample_ids as (Ha & _ & _ & Hcode).
  apply (fetch_by_id_and_by_share_code Sample.st3 Sample.the_tournament
           Sample.oid_a "01fe9c").
  - exact (reachable_store_wf _ reachable_st3).
  - rewrite Ht3. left.
  - exact Ha.
  - exact Hcode.
  - intros T' HT' _. by apply (sample_tournament_only Sample.st3).
  - vm_decide.
Defined.

(** C6: in the handlers that resolve a tournament (fetch, register
    participant, create match, share link) a 24-character reference that
    [ObjectId] does not parse fails with BadRequest (400), while a
    well-formed reference (one that parses to a twelve-byte id, or one that
    is not 24 characters long) that matches no tournament fails with NotFound
    (404); the two conditions differ; and fetching
    [000000000000000000000000] from a store without that id is NotFound. *)
Theorem resolution_failures e st reference payload :
  (malformed reference →
     get_tournament st reference = Raise BadRequest ∧
     get_share_link e st reference = Raise BadRequest ∧
     register_participant e st reference payload = (Raise BadRequest, st) ∧
     create_match e st reference payload = (Raise BadRequest, st)) ∧
  (unmatched st reference →
     get_tournament st reference = Raise NotFound ∧
     get_share_link e st reference = Raise NotFound ∧
     register_participant e st reference payload = (Raise NotFound, st) ∧
     create_match e st reference payload = (Raise NotFound, st)) ∧
  BadRequest ≠ NotFound ∧
  ((∀ d, d ∈ tournaments st → d !! "_id" ≠ Some (VOid (repeat x00 12))) →
     get_tournament st "000000000000000000000000" = Raise NotFound).
Proof.
  rewrite !get_tournament_resolves, get_share_link_resolves,
    register_participant_resolves, create_match_resolves.
  split; [|split; [|split]].
  - intros H. by rewrite (resolve_malformed _ _ H).
  - intros H. by rewrite (resolve_unmatched _ _ H).
  - discriminate.
  - intros H. rewrite (resolve_unmatched st "000000000000000000000000"); [done|].
    left. by exists (repeat x00 12).
Qed.

Lemma resolution_failures_witness :
  get_tournament Sample.st3 "zzzzzzzzzzzzzzzzzzzzzzzz" = Raise BadRequest ∧
  get_tournament Sample.st3 "bbbbbbbbbbbbbbbbbbbbbbbb" = Raise NotFound ∧
  get_tournament Sample.st3 "no-such-code" = Raise NotFound ∧
  get_tournament Sample.st3 "000000000000000000000000" = Raise NotFound.
Proof.
  destruct sample_tournaments as (_ & _ & Ht3).
  destruct sample_ids as (Ha & _ & _ & Hcode).
  assert (∀ d, d ∈ tournaments Sample.st3 → d = Sample.the_tournament) as Honly
    by (intros d; by apply sample_tournament_only).
  split; [|split; [|split]].
  - destruct (resolution_failures Sample.env_a Sample.st3
                "zzzzzzzzzzzzzzzzzzzzzzzz" ∅) as (Hbad & _).
    apply Hbad. split; vm_decide.
  - destruct (resolution_failures Sample.env_a Sample.st3
                "bbbbbbbbbbbbbbbbbbbbbbbb" ∅) as (_ & Hnf & _).
    apply Hnf. left. exists Sample.oid_b.
    split; [vm_decide|]. split; [reflexivity|].
    intros d ->%Honly Hid. rewrite Ha in Hid. discriminate Hid.
  - destruct (resolution_failures Sample.env_a Sample.st3 "no-such-code" ∅)
      as (_ & Hnf & _).
    apply Hnf. right. split; [vm_decide|].
    intros d ->%Honly Hc. rewrite Hcode in Hc. discriminate Hc.
  - destruct (resolution_failures Sample.env_a Sample.st3 "" ∅)
      as (_ & _ & _ & Hzero).
    apply Hzero.
    intros d ->%Honly Hid. rewrite Ha in Hid. discriminate Hid.
Defined.

(** ** The list endpoints against the resolution rule *)

Section ListEndpoints.

Implicit Types (st : Store) (reference : string).

(** For a reference that is not 24 characters long the list endpoints
    resolve as the rule says. *)
Lemma list_participants_by_share_code st reference :
  String.length reference ≠ 24 →
  list_participants st reference =
  t ← resolve_tournament st reference;
  Ok (RespRecords
        (serialize_list
           (get_documents st participant
              [("tournament_id", VStr (py_str (dict_get t "_id")))]))).
Proof.
  intros Hlen%Nat.eqb_neq.
  unfold list_participants, resolve_tournament, looks_like_internal_id, dict_get.
  rewrite Hlen. cbn -[find_one falsy]. rewrite falsy_find_one.
  by destruct (find_one _ _).
Qed.

Lemma list_matches_by_share_code st reference :
  String.length reference ≠ 24 →
  list_matches st reference =
  t ← resolve_tournament st reference;
  Ok (RespRecords
        (serialize_list
           (get_documents st match_
              [("tournament_id", VStr (py_str (dict_get t "_id")))]))).
Proof.
  intros Hlen%Nat.eqb_neq.
  unfold list_matches, resolve_tournament, looks_like_internal_id, dict_get.
  rewrite Hlen. cbn -[find_one falsy]. rewrite falsy_find_one.
  by destruct (find_one _ _).
Qed.

(** For a reference of 24 characters they look no tournament up: the
    reference itself is the filter, and the answer is always a list. *)
Lemma list_participants_by_length st reference :
  String.length reference = 24 →
  list_participants st reference =
  Ok (RespRecords
        (serialize_list
           (get_documents st participant [("tournament_id", VStr reference)]))).
Proof.
  intros Hlen. unfold list_participants. rewrite Hlen. cbn -[get_documents].
  case_bool_decide as Hempty; [by subst|done].
Qed.

Lemma list_matches_by_length st reference :
  String.length reference = 24 →
  list_matches st reference =
  Ok (RespRecords
        (serialize_list
           (get_documents st match_ [("tournament_id", VStr reference)]))).
Proof.
  intros Hlen. unfold list_matches. rewrite Hlen. cbn -[get_documents].
  case_bool_decide as Hempty; [by subst|done].
Qed.

End ListEndpoints.

(** ** Serialization *)

Section Serialization.

Implicit Types (st : Store) (e : Env) (d r : doc).

Lemma to_str_id_public st c d :
  store_wf st → d ∈ db st c → public_form d (to_str_id d).
Proof.
  intros Hwf Hd. destruct (wf_oid _ Hwf c d Hd) as (o & Hid & _).
  exists o. split; [done|]. by apply to_str_id_oid.
Qed.

Lemma found_public st c q :
  store_wf st →
  ∀ obj, obj ∈ [to_str_id <$> find_one (db st c) q] →
         falsy (find_one (db st c) q) = false →
         ∃ r d, obj = Some r ∧ d ∈ db st c ∧ public_form d r.
Proof.
  intros Hwf obj ->%list_elem_of_singleton Hfound.
  destruct (find_one (db st c) q) as [d|] eqn:Hd; [|done].
  apply find_one_Some in Hd as [Hd _].
  exists (to_str_id d), d. split; [done|]. split; [done|].
  by eapply to_str_id_public.
Qed.

Lemma listed_public st c q :
  store_wf st →
  ∀ obj, obj ∈ Some <$> serialize_list (get_documents st c q) →
         ∃ r d, obj = Some r ∧ d ∈ db st c ∧ public_form d r.
Proof.
  intros Hwf obj (r & -> & Hr)%list_elem_of_fmap.
  unfold serialize_list in Hr. apply list_elem_of_In, in_map_iff in Hr.
  destruct Hr as (d & <- & Hd%list_elem_of_In%get_documents_elem).
  destruct Hd as [Hd _].
  exists (to_str_id d), d. split; [done|]. split; [done|].
  by eapply to_str_id_public.
Qed.

(** The record a create handler returns, whether or not the assigned
    identifier is fresh: some document of the collection in public form. *)
Lemma created_public e st c data resp :
  store_wf st →
  let st' := insert_one c (<["_id" := VOid (new_oid e)]> data) st in
  match ObjectId_of_str (str_oid (new_oid e)) with
  | None => Raise InternalError
  | Some o =>
      Ok (RespRecord (to_str_id <$> find_one (db st' c) [("_id", VOid o)]))
  end = Ok resp →
  ∀ obj, obj ∈ records_of resp →
         ∃ r d, obj = Some r ∧ d ∈ db st' c ∧ public_form d r.
Proof.
  intros Hwf st'. unfold ObjectId_of_str, str_oid.
  destruct (Nat.eqb _ 24); [|done]. rewrite fromhex_hexlify.
  intros [= <-] obj ->%list_elem_of_singleton.
  subst st'. rewrite db_insert_one_same.
  destruct (find_one_app_is_Some (db st c) "_id" (VOid (new_oid e))
              (<["_id" := VOid (new_oid e)]> data))
    as (d & -> & Hd & Hid); [by rewrite lookup_insert_eq|].
  exists (to_str_id d), d. split; [done|]. split; [done|].
  exists (new_oid e). split; [done|]. by apply to_str_id_oid.
Qed.

End Serialization.

(** C7: every record a response carries, alone or in a list, is the public
    form of a stored document: it has the document's store-assigned
    identifier as a string under [id] and has no [_id] field. *)
Theorem returned_records_are_public e st req resp :
  store_wf st → (app e st req).1 = Ok resp →
  ∀ obj, obj ∈ records_of resp →
    ∃ r d c o,
      obj = Some r ∧ d ∈ db (app e st req).2 c ∧
      d !! "_id" = Some (VOid o) ∧
      r = <["id" := VStr (str_oid o)]> (delete "_id" d) ∧
      r !! "id" = Some (VStr (str_oid o)) ∧ r !! "_id" = None.
Proof.
  intros Hwf Hresp obj Hobj.
  enough (∃ r d c, obj = Some r ∧ d ∈ db (app e st req).2 c ∧ public_form d r)
    as (r & d & c & -> & Hd & Hpub).
  { destruct (public_form_lookup _ _ Hpub) as (Hno & o & Hid & Hpublic).
    destruct Hpub as (o' & Hid' & Hr).
    assert (o' = o) as -> by congruence.
    by exists r, d, c, o. }
  destruct req as [| | |body|tid|tid body|tid|tid body|tid|tid|code];
    cbn [app fst snd] in Hresp |- *.
  - injection Hresp as <-. by apply elem_of_nil in Hobj.
  - injection Hresp as <-. by apply elem_of_nil in Hobj.
  - injection Hresp as <-.
    destruct (listed_public st tournament [] Hwf obj Hobj) as (r & d & ?).
    by exists r, d, tournament.
  - unfold with_body in *.
    destruct (model_validate e Tournament body) as [payload|]; [|done].
    unfold create_tournament, create_document in *.
    destruct (ObjectId_of_str (str_oid (new_oid e))) as [o|] eqn:Ho; [|done].
    cbn [fst snd] in Hresp |- *.
    edestruct (created_public e st tournament) as (r & d & ?); [done| |done|].
    { rewrite Ho. exact Hresp. }
    by exists r, d, tournament.
  - rewrite get_tournament_resolves in Hresp.
    destruct (resolve_tournament st tid) as [t|] eqn:Ht; [|done].
    injection Hresp as <-. apply list_elem_of_singleton in Hobj as ->.
    pose proof (resolve_Ok _ _ _ Ht) as HtIn.
    exists (to_str_id t), t, tournament. split; [done|]. split; [done|].
    by apply (to_str_id_public st tournament).
  - unfold with_body in *.
    destruct (model_validate e Participant body) as [payload|]; [|done].
    rewrite register_participant_resolves in *.
    destruct (resolve_tournament st tid) as [t|]; [|done]. cbv zeta in *.
    destruct (ObjectId_of_str (str_oid (new_oid e))) as [o|] eqn:Ho; [|done].
    cbn [fst snd] in Hresp |- *.
    edestruct (created_public e st participant) as (r & d & ?); [done| |done|].
    { rewrite Ho. exact Hresp. }
    by exists r, d, participant.
  - destruct (decide (String.length tid = 24)) as [Hlen|Hlen].
    + rewrite list_participants_by_length in Hresp by done.
      injection Hresp as <-.
      destruct (listed_public st participant _ Hwf obj Hobj) as (r & d & ?).
      by exists r, d, participant.
    + rewrite list_participants_by_share_code in Hresp by done.
      destruct (resolve_tournament st tid) as [t|]; [|done].
      injection Hresp as <-.
      destruct (listed_public st participant _ Hwf obj Hobj) as (r & d & ?).
      by exists r, d, participant.
  - unfold with_body in *.
    destruct (model_validate e Match body) as [payload|]; [|done].
    rewrite create_match_resolves in *.
    destruct (resolve_tournament st tid) as [t|]; [|done]. cbv zeta in *.
    destruct (ObjectId_of_str (str_oid (new_oid e))) as [o|] eqn:Ho; [|done].
    cbn [fst snd] in Hresp |- *.
    edestruct (created_public e st match_) as (r & d & ?); [done| |done|].
    { rewrite Ho. exact Hresp. }
    by exists r, d, match_.
  - destruct (decide (String.length tid = 24)) as [Hlen|Hlen].
    + rewrite list_matches_by_length in Hresp by done.
      injection Hresp as <-.
      destruct (listed_public st match_ _ Hwf obj Hobj) as (r & d & ?).
      by exists r, d, match_.
    + rewrite list_matches_by_share_code in Hresp by done.
      destruct (resolve_tournament st tid) as [t|]; [|done].
      injection Hresp as <-.
      destruct (listed_public st match_ _ Hwf obj Hobj) as (r & d & ?).
      by exists r, d, match_.
  - rewrite get_share_link_resolves in Hresp.
    destruct (resolve_tournament st tid) as [t|]; [|done].
    cbn [mbind result_bind] in Hresp.
    destruct (dict_get t "share_code"); try done.
    injection Hresp as <-. by apply elem_of_nil in Hobj.
  - unfold get_by_share_code in Hresp.
    destruct (falsy _) eqn:Hfalsy; [done|]. injection Hresp as <-.
    destruct (found_public st tournament _ Hwf obj Hobj Hfalsy) as (r & d & ?).
    by exists r, d, tournament.
Qed.

Lemma returned_records_are_public_witness :
  Some (to_str_id Sample.the_participant) ∈
    records_of (RespRecords
                  (serialize_list
                     (get_documents Sample.st3 participant
                        [("tournament_id", VStr "aaaaaaaaaaaaaaaaaaaaaaaa")]))) ∧
  ∃ r d c o,
    Some (to_str_id Sample.the_participant) = Some r ∧
    d ∈ db (app Sample.env_a Sample.st3
                (GET_participants "aaaaaaaaaaaaaaaaaaaaaaaa")).2 c ∧
    d !! "_id" = Some (VOid o) ∧
    r = <["id" := VStr (str_oid o)]> (delete "_id" d) ∧
    r !! "id" = Some (VStr (str_oid o)) ∧ r !! "_id" = None.
Proof.
  assert (Some (to_str_id Sample.the_participant) ∈
            records_of (RespRecords
                          (serialize_list
                             (get_documents Sample.st3 participant
                                [("tournament_id",
                                  VStr "aaaaaaaaaaaaaaaaaaaaaaaa")])))) as Hin
    by vm_decide.
  split; [exact Hin|].
  apply (returned_records_are_public Sample.env_a Sample.st3
           (GET_participants "aaaaaaaaaaaaaaaaaaaaaaaa")
           (RespRecords
              (serialize_list
                 (get_documents Sample.st3 participant
                    [("tournament_id", VStr "aaaaaaaaaaaaaaaaaaaaaaaa")])))).
  - exact (reachable_store_wf _ reachable_st3).
  - cbn [app fst]. by apply list_participants_by_length.
  - exact Hin.
Defined.

(** ** Validation errors *)

Lemma violation_rejected e body f :
  violation e body f → validate_field e f body = None.
Proof.
  intros [f' Hreq Hmissing|name allowed dflt v Hv Hout
         |name ge le dflt v z Hv Hz Hout];
    unfold validate_field;
    cbn [fname fannot fdefault validate_annot validate_base].
  - by rewrite Hmissing, Hreq.
  - rewrite Hv. destruct v; try done.
    case_bool_decide as Hin; [|done].
    destruct Hout. apply list_elem_of_fmap. by exists s.
  - rewrite Hv, Hz.
    destruct (Z.leb_spec ge z), (Z.leb_spec z le); try done; lia.
Qed.

(** C8: a create request whose body misses a required field, gives an enum
    field a value outside its allowed set, or gives an integer field a value
    outside its range fails with the validation error, and the store is
    unchanged. *)
Theorem invalid_body_is_rejected e st req sch body :
  create_request req = Some (sch, body) → violates e sch body →
  app e st req = (Raise RequestValidationError, st).
Proof.
  intros Hreq (f & Hin & Hviol).
  assert (model_validate e sch body = None) as Hnone
    by (eapply model_validate_fails; [done|by apply violation_rejected]).
  destruct req; try discriminate; injection Hreq as <- <-;
    cbn; unfold with_body; by rewrite Hnone.
Qed.

Lemma invalid_body_is_rejected_witness :
  app Sample.env_b Sample.st1
      (POST_tournaments (<["mode" := VStr "Trio"]> Sample.squad_cup)) =
    (Raise RequestValidationError, Sample.st1) ∧
  app Sample.env_b Sample.st1
      (POST_tournaments (<["max_participants" := VInt 1001]> Sample.squad_cup)) =
    (Raise RequestValidationError, Sample.st1) ∧
  app Sample.env_b Sample.st1 (POST_register "01fe9c" ∅) =
    (Raise RequestValidationError, Sample.st1).
Proof.
  split; [|split].
  - apply (invalid_body_is_rejected _ _ _ Tournament
             (<["mode" := VStr "Trio"]> Sample.squad_cup)); [reflexivity|].
    exists (Field "mode" (Plain (TLiteral ["Solo"; "Duo"; "Squad"]))
                  (Default (VStr "Squad"))).
    split; [vm_decide|].
    apply enum_outside with (v := VStr "Trio"); vm_decide.
  - apply (invalid_body_is_rejected _ _ _ Tournament
             (<["max_participants" := VInt 1001]> Sample.squad_cup));
      [reflexivity|].
    exists (Field "max_participants" (Plain (TInt 1 1000)) (Default (VInt 48))).
    split; [vm_decide|].
    apply int_out_of_range with (v := VInt 1001) (z := 1001%Z);
      [vm_decide|reflexivity|lia].
  - apply (invalid_body_is_rejected _ _ _ Participant ∅); [reflexivity|].
    exists (Field "tournament_id" (Plain TStr) Required).
    split; [vm_decide|].
    apply required_missing; reflexivity.
Defined.

(** ** Create-only, read-only *)

(** C9: over any sequence of requests every collection only grows at its
    end, by at most one document per request: a document that is stored stays
    where it is, unchanged, so a tournament keeps the internal id and the
    share code it was created with. *)
Theorem stored_documents_never_change trace st c :
  (∃ added, db (run st trace) c = (db st c ++ added)%list ∧
            (length added ≤ length trace)%nat) ∧
  (∀ i d, db st c !! i = Some d → db (run st trace) c !! i = Some d) ∧
  (∀ i T, tournaments st !! i = Some T →
     ∃ T', tournaments (run st trace) !! i = Some T' ∧
           T' !! "_id" = T !! "_id" ∧ T' !! "share_code" = T !! "share_code").
Proof.
  split; [apply run_prefix|]. split.
  - intros i d Hd. destruct (run_prefix trace st c) as (added & -> & _).
    by apply lookup_app_l_Some.
  - intros i T HT.
    destruct (run_prefix trace st tournament) as (added & Hrun & _).
    cbn [db] in Hrun. rewrite Hrun. exists T.
    split; [by apply lookup_app_l_Some|done].
Qed.

Lemma stored_documents_never_change_witness :
  db Sample.st1 tournament !! 0 = Some Sample.the_tournament ∧
  db (run Sample.st1
        [(Sample.env_b, POST_register "01fe9c" Sample.player);
         (Sample.env_c, POST_matches "aaaaaaaaaaaaaaaaaaaaaaaa" Sample.final);
         (Sample.env_a, GET_tournaments)]) tournament !! 0 =
    Some Sample.the_tournament.
Proof.
  assert (db Sample.st1 tournament !! 0 = Some Sample.the_tournament) as H
    by vm_decide.
  split; [exact H|].
  exact (proj1 (proj2 (stored_documents_never_change _ Sample.st1 tournament))
           0 Sample.the_tournament H).
Defined.

(** C1, evaluated on the code: in the sample store the tournament has id
    [aaaaaaaaaaaaaaaaaaaaaaaa], one participant and one match.  The 24
    hexadecimal characters [AAAAAAAAAAAAAAAAAAAAAAAA] are resolved by internal
    id by fetch and share, which find the tournament, while list participants
    and list matches answer with an empty list; they list the records only
    under the lower-case spelling.  A 24-character reference that is no
    ObjectId is a BadRequest for fetch and an empty list for the list
    endpoints. *)
Theorem list_endpoints_do_not_resolve_ids :
  get_tournament Sample.st3 "AAAAAAAAAAAAAAAAAAAAAAAA" =
    Ok (RespRecord (Some (to_str_id Sample.the_tournament))) ∧
  get_share_link Sample.env_a Sample.st3 "AAAAAAAAAAAAAAAAAAAAAAAA" =
    Ok (RespShareLink "http://localhost:3000/?t=01fe9c" "01fe9c") ∧
  list_participants Sample.st3 "AAAAAAAAAAAAAAAAAAAAAAAA" = Ok (RespRecords []) ∧
  list_matches Sample.st3 "AAAAAAAAAAAAAAAAAAAAAAAA" = Ok (RespRecords []) ∧
  list_participants Sample.st3 "aaaaaaaaaaaaaaaaaaaaaaaa" =
    Ok (RespRecords [to_str_id Sample.the_participant]) ∧
  list_matches Sample.st3 "aaaaaaaaaaaaaaaaaaaaaaaa" =
    Ok (RespRecords [to_str_id Sample.the_match]) ∧
  get_tournament Sample.st3 "zzzzzzzzzzzzzzzzzzzzzzzz" = Raise BadRequest ∧
  list_participants Sample.st3 "zzzzzzzzzzzzzzzzzzzzzzzz" = Ok (RespRecords []) ∧
  list_matches Sample.st3 "zzzzzzzzzzzzzzzzzzzzzzzz" = Ok (RespRecords []).
Proof. repeat split; vm_decide. Qed.

(** C2, evaluated on the code: no tournament of the sample store has the id
    [000000000000000000000000].  Register participant, create match and share
    link fail with NotFound there; list participants and list matches
    succeed, with an empty list. *)
Theorem list_endpoints_accept_unknown_ids :
  unmatched Sample.st3 "000000000000000000000000" ∧
  (app Sample.env_b Sample.st3
     (POST_register "000000000000000000000000" Sample.player)).1 =
    Raise NotFound ∧
  (app Sample.env_b Sample.st3
     (POST_matches "000000000000000000000000" Sample.final)).1 =
    Raise NotFound ∧
  (app Sample.env_b Sample.st3 (GET_share "000000000000000000000000")).1 =
    Raise NotFound ∧
  (app Sample.env_b Sample.st3
     (GET_participants "000000000000000000000000")).1 = Ok (RespRecords []) ∧
  (app Sample.env_b Sample.st3
     (GET_matches "000000000000000000000000")).1 = Ok (RespRecords []).
Proof.
  split; [|repeat split; vm_decide].
  left. exists (repeat x00 12). split; [vm_decide|]. split; [reflexivity|].
  destruct sample_tournaments as (_ & _ & Ht3).
  destruct sample_ids as (Ha & _).
  intros d Hd Hid. apply (sample_tournament_only _ _ Ht3) in Hd. subst d.
  rewrite Ha in Hid. discriminate Hid.
Qed.

(** * Further properties of the handlers *)

Opaque Sample2.st4 Sample2.st5 Sample2.the_second Sample2.the_long.
Opaque Sample2.duo_cup Sample2.long_cup.

Lemma fresh_d_st3 : fresh Sample2.env_d Sample.st3.
Proof.
  split; [reflexivity|].
  destruct sample_tournaments as (_ & _ & Ht).
  destruct sample_participants as (_ & _ & Hp).
  destruct sample_matches as (_ & _ & Hm).
  destruct sample_ids as (Ha & Hb & Hc & _).
  intros c d Hd Hid. destruct c; cbn [db] in Hd.
  - rewrite Ht in Hd. apply list_elem_of_singleton in Hd. subst d.
    rewrite Ha in Hid. discriminate Hid.
  - rewrite Hp in Hd. apply list_elem_of_singleton in Hd. subst d.
    rewrite Hb in Hid. discriminate Hid.
  - rewrite Hm in Hd. apply list_elem_of_singleton in Hd. subst d.
    rewrite Hc in Hid. discriminate Hid.
Qed.

(** ** [oid] *)

(** X1: [oid] has two outcomes only: it returns an ObjectId or it raises
    the 400 "Invalid id".  It raises for every string that is not 24
    characters long.  When it returns, the string was 24 characters long and
    the ObjectId has twelve bytes less one for every two white space
    characters of the string; a string of 24 hexadecimal digits always gives
    a twelve-byte ObjectId, whose canonical spelling is accepted as well. *)
Theorem oid_outcomes id_str :
  match oid id_str with
  | Ok o =>
      String.length id_str = 24 ∧
      2 * length o + Hex.count_space id_str = 24 ∧
      (valid_oid o → oid (str_oid o) = Ok o)
  | Raise err =>
      err = HTTPException 400 "Invalid id" ∧ ObjectId_of_str id_str = None
  end ∧
  (String.length id_str ≠ 24 → oid id_str = Raise BadRequest) ∧
  (String.length id_str = 24 → Hex.all_chars Hex.is_digit id_str = true →
     ∃ o, oid id_str = Ok o ∧ valid_oid o).
Proof.
  unfold oid. split; [|split].
  - destruct (ObjectId_of_str id_str) as [o|] eqn:Hparse; [|done].
    split; [by eapply ObjectId_of_str_length|].
    split; [by apply ObjectId_of_str_bytes|].
    intros Hvalid. by rewrite ObjectId_of_str_oid.
  - intros Hlen%Nat.eqb_neq. unfold ObjectId_of_str. by rewrite Hlen.
  - intros Hlen Hdigits.
    destruct (ObjectId_of_str_digits _ Hlen Hdigits) as (o & -> & Hvalid).
    by exists o.
Qed.

Lemma oid_outcomes_witness :
  (String.length "01fe9c" ≠ 24 ∧ oid "01fe9c" = Raise BadRequest) ∧
  (∃ o, oid "AAAAAAAAAAAAaaaaaaaaaaaa" = Ok o ∧ valid_oid o).
Proof.
  assert (String.length "01fe9c" ≠ 24) as H by vm_decide.
  split; [split; [exact H|]|].
  - exact (proj1 (proj2 (oid_outcomes "01fe9c")) H).
  - apply (proj2 (proj2 (oid_outcomes "AAAAAAAAAAAAaaaaaaaaaaaa")));
      vm_decide.
Defined.

(** 22 hexadecimal digits and two spaces: [oid] does not raise, the ObjectId
    has eleven bytes. *)
Example oid_skips_white_space :
  oid "0000000000000000000000  " = Ok (repeat x00 11) ∧
  oid "00 00 00 00 00 00 00 00 " = Ok (repeat x00 8) ∧
  oid "0 0000000000000000000000" = Raise BadRequest.
Proof. repeat split; vm_decide. Qed.

(** X2: [oid] undoes [str] on ObjectIds: the string form of a twelve-byte
    ObjectId is 24 lower-case hexadecimal characters, and [oid] parses it back
    to the same ObjectId. *)
Theorem oid_str_round_trip o :
  valid_oid o →
  oid (str_oid o) = Ok o ∧ String.length (str_oid o) = 24 ∧
  Hex.all_chars Hex.is_lower_digit (str_oid o) = true.
Proof.
  intros Hvalid. split; [|split].
  - unfold oid. by rewrite ObjectId_of_str_oid.
  - by apply length_str_oid.
  - apply hexlify_lower.
Qed.

Lemma oid_str_round_trip_witness :
  valid_oid Sample.oid_a ∧
  oid (str_oid Sample.oid_a) = Ok Sample.oid_a ∧
  String.length (str_oid Sample.oid_a) = 24 ∧
  Hex.all_chars Hex.is_lower_digit (str_oid Sample.oid_a) = true.
Proof.
  assert (valid_oid Sample.oid_a) as H by reflexivity.
  split; [exact H|]. exact (oid_str_round_trip Sample.oid_a H).
Defined.

(** ** [to_str_id] *)

Section ToStrId.

Implicit Types (d : doc) (k : string).

Lemma to_str_id_falsy d :
  truthy (dict_get d "_id") = false → to_str_id d = d.
Proof. intros H. unfold to_str_id. by rewrite H. Qed.

Lemma to_str_id_truthy d :
  truthy (dict_get d "_id") = true →
  to_str_id d = <["id" := VStr (py_str (dict_get d "_id"))]> (delete "_id" d).
Proof. intros H. unfold to_str_id. by rewrite H. Qed.

Lemma to_str_id_other d k :
  k ≠ "_id" → k ≠ "id" → to_str_id d !! k = d !! k.
Proof.
  intros H1 H2. unfold to_str_id. destruct (truthy _); [|done].
  by rewrite lookup_insert_ne, lookup_delete_ne.
Qed.

End ToStrId.

(** X3: [to_str_id] is idempotent, whatever the document: once the
    identifier has been moved to [id], or when there is no truthy [_id] to
    move, applying it again changes nothing.  It never touches a field other
    than [_id] and [id]. *)
Theorem to_str_id_idempotent (d : doc) (k : string) :
  to_str_id (to_str_id d) = to_str_id d ∧
  (k ≠ "_id" → k ≠ "id" → to_str_id d !! k = d !! k).
Proof.
  split; [|apply to_str_id_other].
  destruct (truthy (dict_get d "_id")) eqn:Htruthy.
  - rewrite (to_str_id_truthy d Htruthy). apply to_str_id_falsy.
    unfold dict_get. by rewrite lookup_insert_ne, lookup_delete_eq.
  - rewrite (to_str_id_falsy d Htruthy). by apply to_str_id_falsy.
Qed.

Lemma to_str_id_idempotent_witness :
  "title" ≠ "_id" ∧ "title" ≠ "id" ∧
  to_str_id Sample.the_tournament !! "title" = Sample.the_tournament !! "title".
Proof.
  assert ("title" ≠ "_id") as H1 by discriminate.
  assert ("title" ≠ "id") as H2 by discriminate.
  split; [exact H1|]. split; [exact H2|].
  exact (proj2 (to_str_id_idempotent Sample.the_tournament "title") H1 H2).
Defined.

(** ** Validation against a model *)

Section ModelValidate.

Implicit Types (sch : schema) (body payload : doc) (f : field) (k : string).

Lemma field_named_Some k sch f :
  field_named k sch = Some f → f ∈ sch ∧ fname f = k.
Proof.
  unfold field_named. intros [Hin Hk]%find_some.
  split; [by apply list_elem_of_In|]. by apply bool_decide_eq_true in Hk.
Qed.

Lemma field_named_None k sch :
  field_named k sch = None ↔ k ∉ fname <$> sch.
Proof.
  unfold field_named. split.
  - intros Hnone (f & -> & Hin)%list_elem_of_fmap.
    apply list_elem_of_In in Hin.
    pose proof (find_none _ _ Hnone f Hin) as H. cbn in H.
    by rewrite bool_decide_eq_true_2 in H.
  - intros Hnot. destruct (find _ sch) as [f|] eqn:Hf; [|done].
    apply field_named_Some in Hf as [Hin <-].
    destruct Hnot. apply list_elem_of_fmap. by exists f.
Qed.

Lemma model_validate_dom e sch body payload :
  model_validate e sch body = Some payload → dom payload = field_names sch.
Proof.
  intros Hval. apply set_eq. intros k. rewrite elem_of_dom.
  unfold field_names. rewrite elem_of_list_to_set.
  rewrite (model_validate_lookup _ _ _ k Hval).
  destruct (field_named k sch) as [f|] eqn:Hf.
  - apply field_named_Some in Hf as [Hin <-]. split.
    + intros _. apply list_elem_of_fmap. by exists f.
    + intros _. by eapply model_validate_field.
  - apply field_named_None in Hf. split; [by intros [? ?]|done].
Qed.

End ModelValidate.

(** X6: the client does not choose the identifier and cannot add fields.  For
    an accepted body the record POST /api/tournaments returns has exactly the
    fields the Tournament model declares, plus [id]; [id] is the string of the
    identifier the store assigned, even when the body itself carries members
    named [id] or [_id]. *)
Theorem created_record_fields e st body :
  fresh e st → is_Some (model_validate e Tournament body) →
  ∃ r, (app e st (POST_tournaments body)).1 = Ok (RespRecord (Some r)) ∧
       dom r = field_names Tournament ∪ {["id"]} ∧
       r !! "id" = Some (VStr (str_oid (new_oid e))) ∧
       r !! "_id" = None.
Proof.
  intros Hfresh [payload Hval].
  rewrite (post_tournaments_valid _ _ _ _ Hfresh Hval). cbn [fst].
  eexists. split; [reflexivity|].
  assert ("share_code" ∈ field_names Tournament) as Hsc by vm_decide.
  assert ("_id" ∉ field_names Tournament) as Hid by vm_decide.
  split; [|split].
  - rewrite dom_insert_L, dom_delete_L, dom_insert_L.
    rewrite (model_validate_dom _ _ _ _ Hval). set_solver.
  - by rewrite lookup_insert_eq.
  - rewrite lookup_insert_ne by done. apply lookup_delete_eq.
Qed.

Lemma created_record_fields_witness :
  ∃ r, (app Sample.env_a empty_store
          (POST_tournaments
             (<["id" := VStr "chosen"]>
                (<["_id" := VStr "chosen"]>
                   (<["title" := VStr "Open"]> ∅))))).1 =
         Ok (RespRecord (Some r)) ∧
       dom r = field_names Tournament ∪ {["id"]} ∧
       r !! "id" = Some (VStr (str_oid (new_oid Sample.env_a))) ∧
       r !! "_id" = None.
Proof.
  apply (created_record_fields Sample.env_a empty_store).
  - apply fresh_empty. reflexivity.
  - vm_decide.
Defined.

(** ** Outcome of a request and the store *)

(** X7: the outcome of a request decides what happened to the store.  After a
    400, a 404 or a validation error the store is exactly as before.  After a
    success, a read request has changed nothing and a create request has
    appended exactly one document, carrying the identifier the store
    assigned, to the collection of its kind and to no other. *)
Theorem outcome_decides_store e st req :
  match (app e st req).1 with
  | Raise InternalError => True
  | Raise _ => (app e st req).2 = st
  | Ok _ =>
      match created_collection req with
      | None => (app e st req).2 = st
      | Some c =>
          ∃ d, (app e st req).2 = insert_one c d st ∧
               d !! "_id" = Some (VOid (new_oid e))
      end
  end.
Proof.
  destruct req as [| | |body|tid|tid body|tid|tid body|tid|tid|code];
    cbn [app fst snd created_collection];
    try (by destruct (_ : result response) as [?|[]]).
  - unfold with_body. destruct (model_validate e Tournament body); [|done].
    unfold create_tournament, create_document.
    destruct (ObjectId_of_str _); cbn [fst snd]; [|done].
    eexists. split; [reflexivity|]. by rewrite lookup_insert_eq.
  - unfold with_body. destruct (model_validate e Participant body); [|done].
    rewrite register_participant_resolves.
    destruct (resolve_tournament st tid) as [t|[]]; cbn [fst snd]; try done.
    cbv zeta. destruct (ObjectId_of_str _); cbn [fst snd]; [|done].
    eexists. split; [reflexivity|]. by rewrite lookup_insert_eq.
  - unfold with_body. destruct (model_validate e Match body); [|done].
    rewrite create_match_resolves.
    destruct (resolve_tournament st tid) as [t|[]]; cbn [fst snd]; try done.
    cbv zeta. destruct (ObjectId_of_str _); cbn [fst snd]; [|done].
    eexists. split; [reflexivity|]. by rewrite lookup_insert_eq.
Qed.




(** The three failures, one request each. *)
Example the_three_failures :
  (app Sample.env_b Sample.st3
     (POST_register "01fe9c" (<["name" := VInt 9]> Sample.player))).1 =
    Raise RequestValidationError ∧
  (app Sample.env_b Sample.st3
     (POST_register "zzzzzzzzzzzzzzzzzzzzzzzz" Sample.player)).1 =
    Raise BadRequest ∧
  (app Sample.env_b Sample.st3 (POST_register "nosuch" Sample.player)).1 =
    Raise NotFound.
Proof. repeat split; vm_decide. Qed.

(** ** Listings *)

Section Listings.

Implicit Types (st : Store) (e : Env) (c : collection) (d : doc) (q : query).

Lemma get_documents_insert_same c d st q :
  get_documents (insert_one c d st) c q =
  (get_documents st c q ++ (if satisfies q d then [d] else []))%list.
Proof.
  unfold get_documents. rewrite db_insert_one_same, List.filter_app. cbn.
  by destruct (satisfies q d).
Qed.

Lemma get_documents_insert_other c c' d st q :
  c ≠ c' → get_documents (insert_one c d st) c' q = get_documents st c' q.
Proof. intros Hne. unfold get_documents. by rewrite db_insert_one_other. Qed.

Lemma get_documents_run trace st c q :
  ∃ more, get_documents (run st trace) c q =
          (get_documents st c q ++ more)%list.
Proof.
  destruct (run_prefix trace st c) as (added & Hrun & _).
  unfold get_documents. rewrite Hrun, List.filter_app. by eexists.
Qed.

Lemma get_documents_all st c : get_documents st c [] = db st c.
Proof.
  unfold get_documents. induction (db st c) as [|d l IH]; [done|].
  cbn. by rewrite IH.
Qed.

Lemma serialize_list_app (l1 l2 : list doc) :
  serialize_list (l1 ++ l2) = (serialize_list l1 ++ serialize_list l2)%list.
Proof. apply map_app. Qed.

Lemma listing_key_by_length st reference :
  String.length reference = 24 → listing_key st reference = Ok reference.
Proof. intros Hlen. unfold listing_key. by rewrite Hlen. Qed.

(** Both list endpoints, in one equation: the key, then the filter. *)
Lemma list_participants_by_key st reference :
  list_participants st reference =
  key ← listing_key st reference;
  Ok (RespRecords
        (serialize_list
           (get_documents st participant [("tournament_id", VStr key)]))).
Proof.
  unfold listing_key.
  destruct (Nat.eqb_spec (String.length reference) 24) as [Hlen|Hlen].
  - by rewrite list_participants_by_length.
  - rewrite list_participants_by_share_code by done.
    by destruct (resolve_tournament st reference).
Qed.

Lemma list_matches_by_key st reference :
  list_matches st reference =
  key ← listing_key st reference;
  Ok (RespRecords
        (serialize_list
           (get_documents st match_ [("tournament_id", VStr key)]))).
Proof.
  unfold listing_key.
  destruct (Nat.eqb_spec (String.length reference) 24) as [Hlen|Hlen].
  - by rewrite list_matches_by_length.
  - rewrite list_matches_by_share_code by done.
    by destruct (resolve_tournament st reference).
Qed.

Lemma serialized_filter_exact st c key :
  let items :=
    serialize_list (get_documents st c [("tournament_id", VStr key)]) in
  (∀ r, r ∈ items → r !! "tournament_id" = Some (VStr key)) ∧
  (∀ d, d ∈ db st c → d !! "tournament_id" = Some (VStr key) →
        to_str_id d ∈ items) ∧
  (length items ≤ length (db st c))%nat.
Proof.
  intros items. subst items. unfold serialize_list. split; [|split].
  - intros r Hr. apply list_elem_of_In, in_map_iff in Hr.
    destruct Hr as (d & <- & Hd%list_elem_of_In%get_documents_elem).
    destruct Hd as [_ Hd%satisfies_single].
    by rewrite to_str_id_other.
  - intros d Hd Hkey. apply list_elem_of_In, in_map. apply list_elem_of_In.
    apply get_documents_elem. split; [done|]. by apply satisfies_single.
  - rewrite length_map. unfold get_documents. apply List.filter_length_le.
Qed.

End Listings.

(** X9: the participants listing is exact for its key (the reference itself
    when it is 24 characters long, the string of the resolved tournament's id
    otherwise): every listed record has [tournament_id] equal to the key, so
    no participant of another tournament is listed, and every stored
    participant with that [tournament_id] is listed. *)
Theorem participants_listing_exact st reference items :
  list_participants st reference = Ok (RespRecords items) →
  ∃ key, listing_key st reference = Ok key ∧
    (∀ r, r ∈ items → r !! "tournament_id" = Some (VStr key)) ∧
    (∀ d, d ∈ participants st → d !! "tournament_id" = Some (VStr key) →
          to_str_id d ∈ items) ∧
    (length items ≤ length (participants st))%nat.
Proof.
  rewrite list_participants_by_key.
  destruct (listing_key st reference) as [key|]; [|done].
  intros [= <-]. exists key. split; [done|].
  apply (serialized_filter_exact st participant key).
Qed.

Lemma participants_listing_exact_witness :
  ∃ key, listing_key Sample.st3 "01fe9c" = Ok key ∧
    (∀ r, r ∈ [to_str_id Sample.the_participant] →
          r !! "tournament_id" = Some (VStr key)) ∧
    (∀ d, d ∈ participants Sample.st3 →
          d !! "tournament_id" = Some (VStr key) →
          to_str_id d ∈ [to_str_id Sample.the_participant]) ∧
    (length [to_str_id Sample.the_participant] ≤
       length (participants Sample.st3))%nat.
Proof.
  apply (participants_listing_exact Sample.st3 "01fe9c"). vm_decide.
Defined.

(** X10: the matches listing is exact for its key in the same way: only
    matches whose [tournament_id] is the key, and all of them. *)
Theorem matches_listing_exact st reference items :
  list_matches st reference = Ok (RespRecords items) →
  ∃ key, listing_key st reference = Ok key ∧
    (∀ r, r ∈ items → r !! "tournament_id" = Some (VStr key)) ∧
    (∀ d, d ∈ matches st → d !! "tournament_id" = Some (VStr key) →
          to_str_id d ∈ items) ∧
    (length items ≤ length (matches st))%nat.
Proof.
  rewrite list_matches_by_key.
  destruct (listing_key st reference) as [key|]; [|done].
  intros [= <-]. exists key. split; [done|].
  apply (serialized_filter_exact st match_ key).
Qed.

Lemma matches_listing_exact_witness :
  ∃ key, listing_key Sample.st3 "aaaaaaaaaaaaaaaaaaaaaaaa" = Ok key ∧
    (∀ r, r ∈ [to_str_id Sample.the_match] →
          r !! "tournament_id" = Some (VStr key)) ∧
    (∀ d, d ∈ matches Sample.st3 →
          d !! "tournament_id" = Some (VStr key) →
          to_str_id d ∈ [to_str_id Sample.the_match]) ∧
    (length [to_str_id Sample.the_match] ≤ length (matches Sample.st3))%nat.
Proof.
  apply (matches_listing_exact Sample.st3 "aaaaaaaaaaaaaaaaaaaaaaaa").
  vm_decide.
Defined.

(** X11: registering a participant and then listing compose.  After a
    successful registration under a reference that resolves to the tournament
    with id [o], the participants listing for [str o] is the listing from
    before followed by the returned record; the listing for every other
    24-character key is unchanged, and so are the tournaments. *)
Theorem registered_participant_is_listed e st reference body t o :
  store_wf st → fresh e st →
  resolve_tournament st reference = Ok t → t !! "_id" = Some (VOid o) →
  is_Some (model_validate e Participant body) →
  ∃ r st',
    app e st (POST_register reference body) = (Ok (RespRecord (Some r)), st') ∧
    list_participants st' (str_oid o) =
      Ok (RespRecords
            (serialize_list
               (get_documents st participant
                  [("tournament_id", VStr (str_oid o))]) ++ [r])) ∧
    (∀ other, String.length other = 24 → other ≠ str_oid o →
              list_participants st' other = list_participants st other) ∧
    tournaments st' = tournaments st.
Proof.
  intros Hwf Hfresh Hres Hid [payload Hval].
  destruct (wf_oid _ Hwf tournament t (resolve_Ok _ _ _ Hres))
    as (o' & Hid' & Hvalid).
  assert (o' = o) as -> by congruence.
  cbn [app]. unfold with_body. rewrite Hval.
  rewrite register_participant_resolves, Hres. cbv zeta.
  rewrite (insert_then_fetch e st participant _ Hfresh).
  replace (py_str (dict_get t "_id")) with (str_oid o)
    by (unfold dict_get; by rewrite Hid).
  eexists _, _. split; [reflexivity|].
  set (data := <["tournament_id" := VStr (str_oid o)]> payload).
  assert (<["_id" := VOid (new_oid e)]> data !! "tournament_id" =
            Some (VStr (str_oid o))) as Htid
    by (subst data; by rewrite lookup_insert_ne, lookup_insert_eq).
  split; [|split; [|by destruct st]].
  - rewrite list_participants_by_length by by apply length_str_oid.
    rewrite get_documents_insert_same.
    rewrite (proj2 (satisfies_single _ _ _) Htid).
    rewrite serialize_list_app. cbn [serialize_list map].
    rewrite (to_str_id_oid _ (new_oid e)) by by rewrite lookup_insert_eq.
    by rewrite delete_insert_eq.
  - intros other Hlen Hother.
    rewrite !list_participants_by_length by done.
    rewrite get_documents_insert_same.
    destruct (satisfies _ _) eqn:Hsat; [|by rewrite app_nil_r].
    apply satisfies_single in Hsat. rewrite Htid in Hsat. congruence.
Qed.

Lemma registered_participant_is_listed_witness :
  ∃ r st',
    app Sample.env_b Sample.st1 (POST_register "01fe9c" Sample.player) =
      (Ok (RespRecord (Some r)), st') ∧
    list_participants st' (str_oid Sample.oid_a) =
      Ok (RespRecords
            (serialize_list
               (get_documents Sample.st1 participant
                  [("tournament_id", VStr (str_oid Sample.oid_a))]) ++ [r])) ∧
    (∀ other, String.length other = 24 → other ≠ str_oid Sample.oid_a →
              list_participants st' other = list_participants Sample.st1 other) ∧
    tournaments st' = tournaments Sample.st1.
Proof.
  apply (registered_participant_is_listed Sample.env_b Sample.st1 "01fe9c" Sample.player Sample.the_tournament Sample.oid_a).
  - exact (reachable_store_wf _ reachable_st1).
  - exact fresh_b_st1.
  - vm_decide.
  - exact (proj1 sample_ids).
  - vm_decide.
Defined.

(** X12: creating a match and then listing compose in the same way: the
    matches listing for the string of the resolved tournament's id is the
    listing from before followed by the returned record, and the listing for
    every other 24-character key is unchanged. *)
Theorem created_match_is_listed e st reference body t o :
  store_wf st → fresh e st →
  resolve_tournament st reference = Ok t → t !! "_id" = Some (VOid o) →
  is_Some (model_validate e Match body) →
  ∃ r st',
    app e st (POST_matches reference body) = (Ok (RespRecord (Some r)), st') ∧
    list_matches st' (str_oid o) =
      Ok (RespRecords
            (serialize_list
               (get_documents st match_
                  [("tournament_id", VStr (str_oid o))]) ++ [r])) ∧
    (∀ other, String.length other = 24 → other ≠ str_oid o →
              list_matches st' other = list_matches st other) ∧
    tournaments st' = tournaments st.
Proof.
  intros Hwf Hfresh Hres Hid [payload Hval].
  destruct (wf_oid _ Hwf tournament t (resolve_Ok _ _ _ Hres))
    as (o' & Hid' & Hvalid).
  assert (o' = o) as -> by congruence.
  cbn [app]. unfold with_body. rewrite Hval.
  rewrite create_match_resolves, Hres. cbv zeta.
  rewrite (insert_then_fetch e st match_ _ Hfresh).
  replace (py_str (dict_get t "_id")) with (str_oid o)
    by (unfold dict_get; by rewrite Hid).
  eexists _, _. split; [reflexivity|].
  set (data := <["tournament_id" := VStr (str_oid o)]> payload).
  assert (<["_id" := VOid (new_oid e)]> data !! "tournament_id" =
            Some (VStr (str_oid o))) as Htid
    by (subst data; by rewrite lookup_insert_ne, lookup_insert_eq).
  split; [|split; [|by destruct st]].
  - rewrite list_matches_by_length by by apply length_str_oid.
    rewrite get_documents_insert_same.
    rewrite (proj2 (satisfies_single _ _ _) Htid).
    rewrite serialize_list_app. cbn [serialize_list map].
    rewrite (to_str_id_oid _ (new_oid e)) by by rewrite lookup_insert_eq.
    by rewrite delete_insert_eq.
  - intros other Hlen Hother.
    rewrite !list_matches_by_length by done.
    rewrite get_documents_insert_same.
    destruct (satisfies _ _) eqn:Hsat; [|by rewrite app_nil_r].
    apply satisfies_single in Hsat. rewrite Htid in Hsat. congruence.
Qed.

Lemma created_match_is_listed_witness :
  ∃ r st',
    app Sample.env_c Sample.st2 (POST_matches "01fe9c" Sample.final) =
      (Ok (RespRecord (Some r)), st') ∧
    list_matches st' (str_oid Sample.oid_a) =
      Ok (RespRecords
            (serialize_list
               (get_documents Sample.st2 match_
                  [("tournament_id", VStr (str_oid Sample.oid_a))]) ++ [r])) ∧
    (∀ other, String.length other = 24 → other ≠ str_oid Sample.oid_a →
              list_matches st' other = list_matches Sample.st2 other) ∧
    tournaments st' = tournaments Sample.st2.
Proof.
  apply (created_match_is_listed Sample.env_c Sample.st2 "01fe9c" Sample.final Sample.the_tournament Sample.oid_a).
  - exact (reachable_store_wf _ reachable_st2).
  - exact fresh_c_st2.
  - vm_decide.
  - exact (proj1 sample_ids).
  - vm_decide.
Defined.

(** ** Later requests *)

Section LaterRequests.

Implicit Types (st : Store) (docs more : list doc) (q : query).

Lemma find_one_app_found docs more q t :
  find_one docs q = Some t → find_one (docs ++ more) q = Some t.
Proof.
  unfold find_one. induction docs as [|d docs IH]; [done|]. cbn.
  by destruct (satisfies q d).
Qed.

Lemma resolve_tournament_app st st' reference t :
  (∃ more, tournaments st' = (tournaments st ++ more)%list) →
  resolve_tournament st reference = Ok t →
  resolve_tournament st' reference = Ok t.
Proof.
  intros [more Hmore]. unfold resolve_tournament. cbn [db]. rewrite Hmore.
  destruct (looks_like_internal_id reference).
  - destruct (ObjectId_of_str reference); [|done].
    destruct (find_one (tournaments st) _) eqn:Hfound; [|done].
    by rewrite (find_one_app_found _ _ _ _ Hfound).
  - destruct (find_one (tournaments st) _) eqn:Hfound; [|done].
    by rewrite (find_one_app_found _ _ _ _ Hfound).
Qed.

Lemma resolve_tournament_run trace st reference t :
  resolve_tournament st reference = Ok t →
  resolve_tournament (run st trace) reference = Ok t.
Proof.
  apply resolve_tournament_app.
  destruct (run_prefix trace st tournament) as (more & Hmore & _).
  by exists more.
Qed.


End LaterRequests.

(** X13: resolution is stable.  Once a reference resolves to a tournament,
    it resolves to that same tournament after any sequence of further
    requests, so fetch and share link keep giving the same answer: nothing a
    later request does, not even creating a tournament with the same share
    code, redirects an existing reference. *)
Theorem resolution_is_stable trace e st reference t :
  resolve_tournament st reference = Ok t →
  resolve_tournament (run st trace) reference = Ok t ∧
  get_tournament (run st trace) reference = get_tournament st reference ∧
  get_share_link e (run st trace) reference = get_share_link e st reference.
Proof.
  intros Hres. pose proof (resolve_tournament_run trace _ _ _ Hres) as Hrun.
  split; [done|].
  by rewrite !get_tournament_resolves, !get_share_link_resolves, Hres, Hrun.
Qed.

Lemma resolution_is_stable_witness :
  resolve_tournament
    (run Sample.st3 [(Sample2.env_d, POST_tournaments Sample2.duo_cup)])
    "01fe9c" = Ok Sample.the_tournament ∧
  get_tournament
    (run Sample.st3 [(Sample2.env_d, POST_tournaments Sample2.duo_cup)])
    "01fe9c" = get_tournament Sample.st3 "01fe9c" ∧
  get_share_link Sample.env_a
    (run Sample.st3 [(Sample2.env_d, POST_tournaments Sample2.duo_cup)])
    "01fe9c" = get_share_link Sample.env_a Sample.st3 "01fe9c".
Proof.
  apply (resolution_is_stable
           [(Sample2.env_d, POST_tournaments Sample2.duo_cup)]
           Sample.env_a Sample.st3 "01fe9c" Sample.the_tournament).
  vm_decide.
Defined.




(** One participant is listed before, two after; the second is the record of
    the registration in between. *)
Example listing_grows_by_the_registration :
  list_participants Sample.st3 "01fe9c" =
    Ok (RespRecords [to_str_id Sample.the_participant]) ∧
  ∃ d, created_since Sample.st3
         [(Sample2.env_d, POST_register "01fe9c" Sample.player)] participant =
         [d] ∧
       d !! "_id" = Some (VOid Sample2.oid_d) ∧
       list_participants
         (run Sample.st3
            [(Sample2.env_d, POST_register "01fe9c" Sample.player)])
         "01fe9c" =
         Ok (RespRecords [to_str_id Sample.the_participant; to_str_id d]).
Proof.
  split; [vm_decide|].
  exists (<["_id" := VOid Sample2.oid_d]>
            (<["tournament_id" := VStr "aaaaaaaaaaaaaaaaaaaaaaaa"]>
               (default ∅ (model_validate Sample2.env_d Participant
                             Sample.player)))).
  repeat split; vm_decide.
Qed.

(** X15: GET /api/tournaments returns every stored tournament, in store
    order, each in public form; in a well-formed store every record has a
    24-character [id] and no two records have the same [id]. *)
Theorem tournaments_listing st :
  store_wf st →
  list_tournaments st = Ok (RespRecords (to_str_id <$> tournaments st)) ∧
  NoDup ((λ r : doc, r !! "id") <$> (to_str_id <$> tournaments st)) ∧
  ∀ r, r ∈ to_str_id <$> tournaments st →
       ∃ s, r !! "id" = Some (VStr s) ∧ String.length s = 24 ∧
            r !! "_id" = None.
Proof.
  intros Hwf.
  assert (∀ i d, tournaments st !! i = Some d →
            ∃ o, d !! "_id" = Some (VOid o) ∧ valid_oid o ∧
                 to_str_id d !! "id" = Some (VStr (str_oid o)) ∧
                 to_str_id d !! "_id" = None) as Hpublic.
  { intros i d Hd.
    destruct (wf_oid _ Hwf tournament d) as (o & Hid & Hvalid);
      [by eapply list_elem_of_lookup_2|].
    exists o. rewrite (to_str_id_oid _ _ Hid).
    rewrite lookup_insert_eq, lookup_insert_ne, lookup_delete_eq by done.
    done. }
  split; [|split].
  - unfold list_tournaments. by rewrite get_documents_all.
  - apply NoDup_alt. intros i j x. rewrite !list_lookup_fmap.
    destruct (tournaments st !! i) as [di|] eqn:Hi; [|done].
    destruct (tournaments st !! j) as [dj|] eqn:Hj; [|done].
    cbn. intros [= <-] [= Heq].
    destruct (Hpublic _ _ Hi) as (oi & Hidi & _ & Hpi & _).
    destruct (Hpublic _ _ Hj) as (oj & Hidj & _ & Hpj & _).
    rewrite Hpi, Hpj in Heq. injection Heq as Heq%hexlify_inj.
    eapply (wf_unique _ Hwf tournament); [exact Hi|exact Hj|congruence].
  - intros r (d & -> & Hd)%list_elem_of_fmap.
    apply list_elem_of_lookup in Hd as [i Hi].
    destruct (Hpublic _ _ Hi) as (o & _ & Hvalid & Hp & Hnone).
    exists (str_oid o). by rewrite length_str_oid.
Qed.

Lemma tournaments_listing_witness :
  list_tournaments Sample2.st4 =
    Ok (RespRecords (to_str_id <$> tournaments Sample2.st4)) ∧
  NoDup ((λ r : doc, r !! "id") <$> (to_str_id <$> tournaments Sample2.st4)) ∧
  ∀ r, r ∈ to_str_id <$> tournaments Sample2.st4 →
       ∃ s, r !! "id" = Some (VStr s) ∧ String.length s = 24 ∧
            r !! "_id" = None.
Proof.
  apply (tournaments_listing Sample2.st4).
  assert (Sample2.st4 =
          (app Sample2.env_d Sample.st3
             (POST_tournaments Sample2.duo_cup)).2) as -> by vm_decide.
  apply app_store_wf; [exact (reachable_store_wf _ reachable_st3)|].
  exact fresh_d_st3.
Defined.

(** ** Creating, then fetching *)

Section CreateThenFetch.

Implicit Types (st : Store) (e : Env) (T d : doc) (o : ObjectId).

Lemma get_tournament_by_oid st T o :
  store_wf st → T ∈ tournaments st → T !! "_id" = Some (VOid o) →
  get_tournament st (str_oid o) = Ok (RespRecord (Some (to_str_id T))).
Proof.
  intros Hwf HT Hid.
  destruct (wf_oid _ Hwf tournament T HT) as (o' & Hid' & Hvalid).
  assert (o' = o) as -> by congruence.
  rewrite get_tournament_resolves.
  unfold resolve_tournament, looks_like_internal_id.
  rewrite length_str_oid, ObjectId_of_str_oid by done. cbn [Nat.eqb db].
  rewrite (find_one_unique _ _ _ T); [done..|].
  intros T' HT' Hid''.
  apply list_elem_of_lookup in HT as [i Hi].
  apply list_elem_of_lookup in HT' as [j Hj].
  assert (j = i) as ->
    by (eapply (wf_unique _ Hwf tournament); eauto; congruence).
  cbn [db] in *. congruence.
Qed.

Lemma find_one_share_code_found (docs : list doc) t code :
  t ∈ docs → t !! "share_code" = Some (VStr code) →
  ∃ T, find_one docs [("share_code", VStr code)] = Some T ∧
       T ∈ docs ∧ T !! "share_code" = Some (VStr code).
Proof.
  intros Hin Hcode.
  destruct (find_one docs [("share_code", VStr code)]) as [T|] eqn:Hfind.
  - exists T. apply find_one_Some in Hfind as [? ?%satisfies_single]. done.
  - rewrite find_one_None in Hfind. specialize (Hfind t Hin).
    apply satisfies_single in Hcode. congruence.
Qed.

Lemma get_by_share_code_found st T code :
  find_one (tournaments st) [("share_code", VStr code)] = Some T →
  get_by_share_code st code = Ok (RespRecord (Some (to_str_id T))).
Proof.
  intros Hfind. unfold get_by_share_code. cbn [db].
  by rewrite falsy_find_one, Hfind.
Qed.

Lemma fetch_created_by_id e st (data : doc) :
  fresh e st →
  get_tournament
    (insert_one tournament (<["_id" := VOid (new_oid e)]> data) st)
    (str_oid (new_oid e)) =
  Ok (RespRecord
        (Some (<["id" := VStr (str_oid (new_oid e))]> (delete "_id" data)))).
Proof.
  intros [Hvalid Hfresh]. rewrite get_tournament_resolves.
  unfold resolve_tournament, looks_like_internal_id.
  rewrite length_str_oid, ObjectId_of_str_oid by done.
  cbn [Nat.eqb db insert_one tournaments].
  rewrite (find_one_app_new _ _ _ (<["_id" := VOid (new_oid e)]> data));
    [|by apply (Hfresh tournament)|by rewrite lookup_insert_eq].
  cbn [mbind result_bind].
  rewrite (to_str_id_oid _ (new_oid e)) by by rewrite lookup_insert_eq.
  by rewrite delete_insert_eq.
Qed.

Lemma validated_supplied_share_code e body payload code :
  model_validate e Tournament body = Some payload →
  body !! "share_code" = Some (VStr code) →
  payload !! "share_code" = Some (VStr code).
Proof.
  intros Hval Hbody.
  rewrite (model_validate_lookup _ _ _ "share_code" Hval).
  change (field_named "share_code" Tournament)
    with (Some (Field "share_code" (Optional TStr) (Default VNone))).
  unfold validate_field. cbn [fname fannot fdefault]. rewrite Hbody.
  unfold validate_annot. by rewrite bool_decide_eq_false_2.
Qed.

Lemma stored_share_code_supplied e payload code :
  payload !! "share_code" = Some (VStr code) → code ≠ "" →
  stored_share_code e payload = VStr code.
Proof.
  intros Hp Hne. unfold stored_share_code, dict_get. rewrite Hp. cbn.
  by rewrite bool_decide_eq_false_2.
Qed.

End CreateThenFetch.

(** X16: create, then fetch.  After a tournament is created, fetching by the
    returned [id] gives back exactly the returned record; and when no earlier
    tournament has the record's share code, so does looking the code up, both
    through /api/share and (for a code that is not 24 characters long)
    through /api/tournaments. *)
Theorem created_tournament_is_fetched e st body :
  fresh e st → is_Some (model_validate e Tournament body) →
  ∃ r st' code,
    app e st (POST_tournaments body) = (Ok (RespRecord (Some r)), st') ∧
    r !! "share_code" = Some (VStr code) ∧
    get_tournament st' (str_oid (new_oid e)) = Ok (RespRecord (Some r)) ∧
    ((∀ d, d ∈ tournaments st → d !! "share_code" ≠ Some (VStr code)) →
       get_by_share_code st' code = Ok (RespRecord (Some r)) ∧
       (String.length code ≠ 24 →
          get_tournament st' code = Ok (RespRecord (Some r)))).
Proof.
  intros Hfresh [payload Hval].
  rewrite (post_tournaments_valid _ _ _ _ Hfresh Hval).
  destruct (stored_share_code_nonempty e _ _ Hval) as (code & Hcode & _).
  rewrite Hcode.
  set (data := <["share_code" := VStr code]> payload).
  set (new := <["_id" := VOid (new_oid e)]> data).
  assert (new !! "_id" = Some (VOid (new_oid e))) as Hnew_id
    by (subst new; by rewrite lookup_insert_eq).
  assert (new !! "share_code" = Some (VStr code)) as Hnew_code
    by (subst new data; by rewrite lookup_insert_ne, lookup_insert_eq).
  assert (to_str_id new =
            <["id" := VStr (str_oid (new_oid e))]> (delete "_id" data)) as Hpub
    by (rewrite (to_str_id_oid _ _ Hnew_id); subst new;
        by rewrite delete_insert_eq).
  destruct Hfresh as [Hvalid Hfresh].
  eexists _, _, code. split; [reflexivity|].
  split; [subst data;
          by rewrite lookup_insert_ne, lookup_delete_ne, lookup_insert_eq|].
  split.
  - rewrite get_tournament_resolves.
    unfold resolve_tournament, looks_like_internal_id.
    rewrite length_str_oid, ObjectId_of_str_oid by done.
    cbn [Nat.eqb db insert_one tournaments].
    rewrite (find_one_app_new _ _ _ new); [|by apply (Hfresh tournament)|done].
    cbn [mbind result_bind]. by rewrite Hpub.
  - intros Hunused.
    assert (find_one (tournaments st ++ [new]) [("share_code", VStr code)] =
              Some new) as Hfind by by apply find_one_app_new.
    split.
    + rewrite (get_by_share_code_found _ new code); [by rewrite Hpub|done].
    + intros Hlen%Nat.eqb_neq. rewrite get_tournament_resolves.
      unfold resolve_tournament, looks_like_internal_id. rewrite Hlen.
      cbn [db insert_one tournaments]. rewrite Hfind.
      cbn [mbind result_bind]. by rewrite Hpub.
Qed.

Lemma created_tournament_is_fetched_witness :
  ∃ r st' code,
    app Sample.env_a empty_store (POST_tournaments Sample.squad_cup) =
      (Ok (RespRecord (Some r)), st') ∧
    r !! "share_code" = Some (VStr code) ∧
    get_tournament st' (str_oid (new_oid Sample.env_a)) =
      Ok (RespRecord (Some r)) ∧
    ((∀ d, d ∈ tournaments empty_store →
           d !! "share_code" ≠ Some (VStr code)) →
       get_by_share_code st' code = Ok (RespRecord (Some r)) ∧
       (String.length code ≠ 24 →
          get_tournament st' code = Ok (RespRecord (Some r)))).
Proof.
  apply (created_tournament_is_fetched Sample.env_a empty_store
           Sample.squad_cup).
  - apply fresh_empty. reflexivity.
  - vm_decide.
Defined.

(** X17: share codes are not checked for uniqueness, and the first holder
    keeps the code.  Creating a tournament with a share code that an existing
    tournament already has succeeds and stores the code as asked; afterwards
    looking the code up still returns the older tournament, through
    /api/share and through /api/tournaments, and the new tournament is
    returned only for its [id]. *)
Theorem duplicate_share_code_first_wins e st body code T :
  fresh e st → is_Some (model_validate e Tournament body) →
  body !! "share_code" = Some (VStr code) → code ≠ "" →
  find_one (tournaments st) [("share_code", VStr code)] = Some T →
  ∃ r st',
    app e st (POST_tournaments body) = (Ok (RespRecord (Some r)), st') ∧
    r !! "share_code" = Some (VStr code) ∧
    get_by_share_code st' code = Ok (RespRecord (Some (to_str_id T))) ∧
    (String.length code ≠ 24 →
       get_tournament st' code = Ok (RespRecord (Some (to_str_id T)))) ∧
    get_tournament st' (str_oid (new_oid e)) = Ok (RespRecord (Some r)).
Proof.
  intros Hfresh [payload Hval] Hbody Hne Hfind.
  rewrite (post_tournaments_valid _ _ _ _ Hfresh Hval).
  assert (payload !! "share_code" = Some (VStr code)) as Hp
    by (by eapply validated_supplied_share_code).
  rewrite (stored_share_code_supplied e payload code Hp Hne).
  pose proof (find_one_app_found _
                [<["_id" := VOid (new_oid e)]>
                   (<["share_code" := VStr code]> payload)] _ _ Hfind)
    as Hfind'.
  eexists _, _. split; [reflexivity|].
  split; [by rewrite lookup_insert_ne, lookup_delete_ne, lookup_insert_eq|].
  split; [|split].
  - by apply get_by_share_code_found.
  - intros Hlen%Nat.eqb_neq. rewrite get_tournament_resolves.
    unfold resolve_tournament, looks_like_internal_id. rewrite Hlen.
    cbn [db insert_one tournaments]. by rewrite Hfind'.
  - by apply fetch_created_by_id.
Qed.

Lemma duplicate_share_code_first_wins_witness :
  ∃ r st',
    app Sample2.env_d Sample.st3 (POST_tournaments Sample2.duo_cup) =
      (Ok (RespRecord (Some r)), st') ∧
    r !! "share_code" = Some (VStr "01fe9c") ∧
    get_by_share_code st' "01fe9c" =
      Ok (RespRecord (Some (to_str_id Sample.the_tournament))) ∧
    (String.length "01fe9c" ≠ 24 →
       get_tournament st' "01fe9c" =
         Ok (RespRecord (Some (to_str_id Sample.the_tournament)))) ∧
    get_tournament st' (str_oid (new_oid Sample2.env_d)) =
      Ok (RespRecord (Some r)).
Proof.
  apply (duplicate_share_code_first_wins Sample2.env_d Sample.st3
           Sample2.duo_cup "01fe9c" Sample.the_tournament).
  - exact fresh_d_st3.
  - vm_decide.
  - vm_decide.
  - discriminate.
  - vm_decide.
Defined.

(** ** Share links and share codes *)

(** X18: a share link can be followed.  When the share endpoint answers, the
    URL is the frontend origin (http://localhost:3000 when FRONTEND_URL is
    unset) followed by [/?t=] and the code, and looking the code up through
    /api/share succeeds with a stored tournament that has this share code. *)
Theorem share_link_can_be_followed e st reference share_url code :
  get_share_link e st reference = Ok (RespShareLink share_url code) →
  share_url =
    default "http://localhost:3000" (FRONTEND_URL e) ++ "/?t=" ++ code ∧
  ∃ T, T ∈ tournaments st ∧ T !! "share_code" = Some (VStr code) ∧
       get_by_share_code st code = Ok (RespRecord (Some (to_str_id T))).
Proof.
  rewrite get_share_link_resolves.
  destruct (resolve_tournament st reference) as [t|] eqn:Hres; [|done].
  cbn [mbind result_bind]. unfold dict_get.
  destruct (t !! "share_code") as [[| ? | ? | ? | c | ? | ? | ? | ?]|] eqn:Hcode; try done.
  cbn [default]. intros [= <- <-]. split; [done|].
  destruct (find_one_share_code_found (tournaments st) t c)
    as (T & Hfind & HT & HTcode); [by eapply resolve_Ok|done|].
  exists T. split; [done|]. split; [done|].
  by apply get_by_share_code_found.
Qed.

Lemma share_link_can_be_followed_witness :
  "http://localhost:3000/?t=01fe9c" =
    default "http://localhost:3000" (FRONTEND_URL Sample.env_a) ++
    "/?t=" ++ "01fe9c" ∧
  ∃ T, T ∈ tournaments Sample.st3 ∧
       T !! "share_code" = Some (VStr "01fe9c") ∧
       get_by_share_code Sample.st3 "01fe9c" =
         Ok (RespRecord (Some (to_str_id T))).
Proof.
  apply (share_link_can_be_followed Sample.env_a Sample.st3
           "aaaaaaaaaaaaaaaaaaaaaaaa").
  vm_decide.
Defined.

(** X19: a share code that is 24 characters long is never tried as a share
    code by /api/tournaments.  For a tournament whose share code has 24
    characters that [ObjectId] refuses (white space skipped, what is left is
    not pairs of hexadecimal digits), /api/share/{code} returns the
    tournament, while fetch, share link, register and create match under the
    same string all fail with 400, whatever the store holds.  A code of 24
    characters that [ObjectId] accepts, white space included, is not spoken
    of. *)
Theorem id_shaped_share_code e st T code payload :
  String.length code = 24 → ObjectId_of_str code = None →
  find_one (tournaments st) [("share_code", VStr code)] = Some T →
  get_by_share_code st code = Ok (RespRecord (Some (to_str_id T))) ∧
  get_tournament st code = Raise BadRequest ∧
  get_share_link e st code = Raise BadRequest ∧
  register_participant e st code payload = (Raise BadRequest, st) ∧
  create_match e st code payload = (Raise BadRequest, st).
Proof.
  intros Hlen Hparse Hfind.
  split; [by apply get_by_share_code_found|].
  rewrite get_tournament_resolves, get_share_link_resolves,
    register_participant_resolves, create_match_resolves.
  by rewrite (resolve_malformed st code (conj Hlen Hparse)).
Qed.

Lemma id_shaped_share_code_witness :
  get_by_share_code Sample2.st5 Sample2.long_code =
    Ok (RespRecord (Some (to_str_id Sample2.the_long))) ∧
  get_tournament Sample2.st5 Sample2.long_code = Raise BadRequest ∧
  get_share_link Sample.env_a Sample2.st5 Sample2.long_code =
    Raise BadRequest ∧
  register_participant Sample.env_a Sample2.st5 Sample2.long_code ∅ =
    (Raise BadRequest, Sample2.st5) ∧
  create_match Sample.env_a Sample2.st5 Sample2.long_code ∅ =
    (Raise BadRequest, Sample2.st5).
Proof.
  apply (id_shaped_share_code Sample.env_a Sample2.st5 Sample2.the_long
           Sample2.long_code ∅); vm_decide.
Defined.

(** X20: a fetched record answers to its reference.  When fetch succeeds the
    record is the public form of a stored tournament; for a 24-character
    reference that tournament's [_id] is the ObjectId the reference parses
    to, otherwise its share code is the reference itself.  Fetch depends on
    an id-shaped reference only through the ObjectId it parses to, so the
    case of the hexadecimal digits does not matter. *)
Theorem fetched_record_answers_reference st reference resp :
  get_tournament st reference = Ok resp →
  (∃ T, T ∈ tournaments st ∧ resp = RespRecord (Some (to_str_id T)) ∧
        if Nat.eqb (String.length reference) 24
        then ∃ o, oid reference = Ok o ∧ T !! "_id" = Some (VOid o)
        else T !! "share_code" = Some (VStr reference)) ∧
  (∀ other o, oid reference = Ok o → oid other = Ok o →
              get_tournament st other = Ok resp).
Proof.
  rewrite get_tournament_resolves. intros Hresp. split.
  - revert Hresp. unfold resolve_tournament, looks_like_internal_id, oid.
    destruct (Nat.eqb (String.length reference) 24).
    + destruct (ObjectId_of_str reference) as [o|]; [|done].
      destruct (find_one _ _) as [T|] eqn:Hfind; [|done].
      intros [= <-]. apply find_one_Some in Hfind as [HT Hid%satisfies_single].
      exists T. split; [done|]. split; [done|]. by exists o.
    + destruct (find_one _ _) as [T|] eqn:Hfind; [|done].
      intros [= <-]. apply find_one_Some in Hfind as [HT Hc%satisfies_single].
      by exists T.
  - intros other o. unfold oid.
    destruct (ObjectId_of_str reference) as [o1|] eqn:H1; [|done].
    destruct (ObjectId_of_str other) as [o2|] eqn:H2; [|done].
    intros [= ->] [= ->]. rewrite get_tournament_resolves, <- Hresp.
    unfold resolve_tournament, looks_like_internal_id.
    by rewrite (ObjectId_of_str_length _ _ H1),
      (ObjectId_of_str_length _ _ H2), H1, H2.
Qed.

Lemma fetched_record_answers_reference_witness :
  (∃ T, T ∈ tournaments Sample.st3 ∧
        RespRecord (Some (to_str_id Sample.the_tournament)) =
          RespRecord (Some (to_str_id T)) ∧
        if Nat.eqb (String.length "AAAAAAAAAAAAAAAAAAAAAAAA") 24
        then ∃ o, oid "AAAAAAAAAAAAAAAAAAAAAAAA" = Ok o ∧
                  T !! "_id" = Some (VOid o)
        else T !! "share_code" = Some (VStr "AAAAAAAAAAAAAAAAAAAAAAAA")) ∧
  get_tournament Sample.st3 "aaaaaaaaaaaaaaaaaaaaaaaa" =
    Ok (RespRecord (Some (to_str_id Sample.the_tournament))).
Proof.
  destruct (fetched_record_answers_reference Sample.st3
              "AAAAAAAAAAAAAAAAAAAAAAAA"
              (RespRecord (Some (to_str_id Sample.the_tournament))))
    as [Hsound Hcase]; [vm_decide|].
  split; [exact Hsound|].
  apply (Hcase "aaaaaaaaaaaaaaaaaaaaaaaa" Sample.oid_a); vm_decide.
Defined.

(** ** Referential integrity *)

Section Integrity.

Implicit Types (st : Store) (e : Env) (d t : doc).

Lemma refers_to_tournament_grow st st' d :
  (∀ t, t ∈ tournaments st → t ∈ tournaments st') →
  refers_to_tournament st d → refers_to_tournament st' d.
Proof. intros Hsub (t & o & Ht & Hid & Hd). exists t, o. auto. Qed.

Lemma integrity_insert_tournament st d :
  referential_integrity st →
  referential_integrity (insert_one tournament d st).
Proof.
  intros Hint d' Hd'. apply (refers_to_tournament_grow st); [|by apply Hint].
  intros t Ht. cbn. apply elem_of_app. by left.
Qed.

Lemma integrity_insert_referring st c d :
  c = participant ∨ c = match_ →
  referential_integrity st → refers_to_tournament st d →
  referential_integrity (insert_one c d st).
Proof.
  intros Hc Hint Hd d' Hd'.
  apply (refers_to_tournament_grow st); [by destruct Hc as [-> | ->]|].
  destruct Hc as [-> | ->]; cbn in Hd'.
  - destruct Hd' as [[Hold|Hnew%list_elem_of_singleton]%elem_of_app|Hm].
    + apply Hint. by left.
    + by subst.
    + apply Hint. by right.
  - destruct Hd' as [Hp|[Hold|Hnew%list_elem_of_singleton]%elem_of_app].
    + apply Hint. by left.
    + apply Hint. by right.
    + by subst.
Qed.

Lemma resolved_is_referred st reference t e (payload : doc) :
  store_wf st → resolve_tournament st reference = Ok t →
  refers_to_tournament st
    (<["_id" := VOid (new_oid e)]>
       (<["tournament_id" := VStr (py_str (dict_get t "_id"))]> payload)).
Proof.
  intros Hwf Hres. pose proof (resolve_Ok _ _ _ Hres) as Ht.
  destruct (wf_oid _ Hwf tournament t Ht) as (o & Hid & _).
  exists t, o. split; [done|]. split; [done|].
  rewrite lookup_insert_ne, lookup_insert_eq by done.
  unfold dict_get. by rewrite Hid.
Qed.

Lemma app_keeps_integrity e st req :
  store_wf st → referential_integrity st →
  referential_integrity (app e st req).2.
Proof.
  intros Hwf Hint.
  destruct req as [| | |body|tid|tid body|tid|tid body|tid|tid|code];
    cbn [app snd]; try done.
  - unfold with_body. destruct (model_validate e Tournament body); [|done].
    unfold create_tournament, create_document.
    destruct (ObjectId_of_str _); by apply integrity_insert_tournament.
  - unfold with_body. destruct (model_validate e Participant body); [|done].
    rewrite register_participant_resolves.
    destruct (resolve_tournament st tid) as [t|] eqn:Hres; [|done]. cbv zeta.
    destruct (ObjectId_of_str _); cbn [snd];
      (apply integrity_insert_referring;
       [by left|done|by eapply resolved_is_referred]).
  - unfold with_body. destruct (model_validate e Match body); [|done].
    rewrite create_match_resolves.
    destruct (resolve_tournament st tid) as [t|] eqn:Hres; [|done]. cbv zeta.
    destruct (ObjectId_of_str _); cbn [snd];
      (apply integrity_insert_referring;
       [by right|done|by eapply resolved_is_referred]).
Qed.

Lemma reachable_integrity st : reachable st → referential_integrity st.
Proof.
  induction 1 as [|e st req Hreach IH Hfresh].
  - intros d [Hd|Hd]; by apply elem_of_nil in Hd.
  - apply app_keeps_integrity; [by apply reachable_store_wf|done].
Qed.

End Integrity.

(** X21: referential integrity holds in every store the application can
    reach.  Every stored participant and every stored match carries, in
    [tournament_id], the string of the id of a tournament that is in the
    store, and fetching that string returns this tournament. *)
Theorem stored_references_resolve st d :
  reachable st → d ∈ participants st ∨ d ∈ matches st →
  ∃ T o, T ∈ tournaments st ∧ T !! "_id" = Some (VOid o) ∧
         d !! "tournament_id" = Some (VStr (str_oid o)) ∧
         get_tournament st (str_oid o) =
           Ok (RespRecord (Some (to_str_id T))).
Proof.
  intros Hreach Hd.
  destruct (reachable_integrity st Hreach d Hd) as (T & o & HT & Hid & Htid).
  exists T, o. split; [done|]. split; [done|]. split; [done|].
  apply get_tournament_by_oid; [by apply reachable_store_wf|done..].
Qed.

Lemma stored_references_resolve_witness :
  ∃ T o, T ∈ tournaments Sample.st3 ∧ T !! "_id" = Some (VOid o) ∧
         Sample.the_participant !! "tournament_id" = Some (VStr (str_oid o)) ∧
         get_tournament Sample.st3 (str_oid o) =
           Ok (RespRecord (Some (to_str_id T))).
Proof.
  apply (stored_references_resolve Sample.st3 Sample.the_participant).
  - exact reachable_st3.
  - left. destruct sample_participants as (_ & _ & ->). left.
Defined.

(** X22: GET /api/share/{code} looks at share codes only.  It answers with
    the public form of a stored tournament whose share code is exactly the
    given string, the first one in store order, and it fails, always with the
    404, exactly when no stored tournament has that share code; an internal
    id is never accepted in place of a code. *)
Theorem share_code_lookup_outcomes st code :
  match get_by_share_code st code with
  | Ok resp =>
      ∃ T, find_one (tournaments st) [("share_code", VStr code)] = Some T ∧
           T ∈ tournaments st ∧ T !! "share_code" = Some (VStr code) ∧
           resp = RespRecord (Some (to_str_id T))
  | Raise err =>
      err = HTTPException 404 "Tournament not found" ∧
      ∀ d, d ∈ tournaments st → d !! "share_code" ≠ Some (VStr code)
  end.
Proof.
  unfold get_by_share_code. cbn [db]. rewrite falsy_find_one.
  destruct (find_one (tournaments st) _) as [T|] eqn:Hfind.
  - exists T. split; [done|].
    by apply find_one_Some in Hfind as [? ?%satisfies_single].
  - split; [done|]. intros d Hd Hcode.
    rewrite find_one_None in Hfind. specialize (Hfind d Hd).
    apply satisfies_single in Hcode. congruence.
Qed.

(** ** Shape of the stored documents *)

Section Shape.

Implicit Types (st : Store) (e : Env) (c : collection) (d : doc).

Lemma stored_shape_insert st c payload body e (k : string) (v : value) :
  stored_shape st →
  model_validate e (model_of c) body = Some payload →
  k ∈ field_names (model_of c) →
  stored_shape
    (insert_one c (<["_id" := VOid (new_oid e)]> (<[k := v]> payload)) st).
Proof.
  intros Hshape Hval Hk c' d.
  destruct (decide (c = c')) as [<-|Hne].
  - rewrite db_insert_one_same.
    intros [Hold|Hnew%list_elem_of_singleton]%elem_of_app; [by apply Hshape|].
    subst d. rewrite !dom_insert_L, (model_validate_dom _ _ _ _ Hval).
    apply set_eq. intros x.
    rewrite !elem_of_union, !elem_of_singleton.
    split; [intros [-> | [-> | Hx]] | intros [Hx | ->]]; auto.
  - rewrite db_insert_one_other by done. apply Hshape.
Qed.

Lemma app_keeps_shape e st req :
  stored_shape st → stored_shape (app e st req).2.
Proof.
  intros Hshape.
  destruct req as [| | |body|tid|tid body|tid|tid body|tid|tid|code];
    cbn [app snd]; try done.
  - unfold with_body.
    destruct (model_validate e Tournament body) as [payload|] eqn:Hval; [|done].
    unfold create_tournament, create_document, model_dump.
    destruct (ObjectId_of_str _); cbn [snd];
      (eapply (stored_shape_insert st tournament); [done|exact Hval|vm_decide]).
  - unfold with_body.
    destruct (model_validate e Participant body) as [payload|] eqn:Hval; [|done].
    rewrite register_participant_resolves.
    destruct (resolve_tournament st tid) as [t|]; [|done]. cbv zeta.
    destruct (ObjectId_of_str _); cbn [snd];
      (eapply (stored_shape_insert st participant);
       [done|exact Hval|vm_decide]).
  - unfold with_body.
    destruct (model_validate e Match body) as [payload|] eqn:Hval; [|done].
    rewrite create_match_resolves.
    destruct (resolve_tournament st tid) as [t|]; [|done]. cbv zeta.
    destruct (ObjectId_of_str _); cbn [snd];
      (eapply (stored_shape_insert st match_); [done|exact Hval|vm_decide]).
Qed.

End Shape.

(** X23: every document the application stores has exactly the fields its
    model declares, plus [_id]: optional fields the client omitted are
    present with their default, and no field the client invented is ever
    stored.  This holds for each collection of every store reached from the
    empty one, whatever identifiers the store assigns. *)
Theorem stored_documents_have_model_fields trace c d :
  d ∈ db (run empty_store trace) c →
  dom d = field_names (model_of c) ∪ {["_id"]}.
Proof.
  enough (∀ st, stored_shape st → stored_shape (run st trace)) as Hrun.
  { apply Hrun. intros c' d' Hd'. destruct c'; by apply elem_of_nil in Hd'. }
  induction trace as [|[e req] trace IH]; intros st Hshape; [done|].
  cbn [run]. by apply IH, app_keeps_shape.
Qed.

Lemma stored_documents_have_model_fields_witness :
  dom (default ∅
         (db (run empty_store
                [(Sample.env_a, POST_tournaments Sample.squad_cup)])
             tournament !! 0)) =
    field_names (model_of tournament) ∪ {["_id"]}.
Proof.
  apply (stored_documents_have_model_fields
           [(Sample.env_a, POST_tournaments Sample.squad_cup)] tournament).
  vm_decide.
Defined.
